(** * Kafka logging block of the Fastly service resource

    A shallow embedding of [fastly/block_fastly_service_v1_logging_kafka.go]:
    the reconciliation pass [Process], the API wrappers [createKafka] and
    [deleteKafka], the read-back [flattenKafka] and the request builders
    [buildCreate] and [buildDelete].

    - A Go value of type [interface{}] is a small tagged union, a
      [map[string]interface{}] is a [gmap string value].
    - The [error] interface is [option error], [None] being nil; a
      function that returns [error] has outcome [Ret tt] for nil and
      [Raise e] otherwise, and a failed type assertion has outcome [Panic].
    - The remote API is a state transformer that answers every call; a
      pass returns its outcome, the new state of the service and the calls
      it issued, oldest first, each with its answer.
    - [SetDiff] (its [Diff] and [Filter]) and the VCL helpers of the
      default handler are declared outside this file of the sources: the
      former are modelled from the specification, the latter are
      parameters of the handler. *)

From stdpp Require Import gmap strings list fin_maps.

Local Open Scope string_scope.
Local Open Scope list_scope.
Local Open Scope Z_scope.

(** ** Dynamic values *)

(** What an [interface{}] field of a block holds: the nil interface, a
    [string], a [bool], an [int] or a [uint]. *)
Inductive value : Type :=
  | VNil
  | VString (s : string)
  | VBool (b : bool)
  | VInt (n : Z)
  | VUint (n : Z).

Global Instance value_eq_dec : EqDecision value.
Proof. solve_decision. Defined.

(** An element of a [schema.Set]: an [interface{}] that is either a
    [map[string]interface{}] or something else. *)
Inductive resource : Type :=
  | RMap (m : gmap string value)
  | ROther (v : value).

Global Instance resource_eq_dec : EqDecision resource.
Proof. solve_decision. Defined.

(** [m[k]] on a Go map: the nil interface when the key is absent. *)
Definition index (m : gmap string value) (k : string) : value :=
  default VNil (m !! k).

(** ** Errors and outcomes *)

(** The values of the [error] interface that reach this file. *)
Inductive error : Type :=
  | HTTPError (StatusCode : Z) (Errors : list string)
      (* *gofastly.HTTPError *)
  | Errorf_type_asserted (r : resource)
      (* fmt.Errorf("resource failed to be type asserted: %+v", resource) *)
  | OtherError (msg : string).
      (* any other error of the API client *)

Global Instance error_eq_dec : EqDecision error.
Proof. solve_decision. Defined.

(** Outcome of a Go computation: a value, a returned error, or a panic. *)
Inductive res (A : Type) : Type :=
  | Ret (a : A)
  | Raise (e : error)
  | Panic.
Arguments Ret {A} a.
Arguments Raise {A} e.
Arguments Panic {A}.

Global Instance res_ret : MRet res := λ A a, Ret a.
Global Instance res_bind : MBind res := λ A B f m,
  match m with
  | Ret a => f a
  | Raise e => Raise e
  | Panic => Panic
  end.

(** Type assertions [v.(string)], [v.(bool)], [v.(int)]: they panic on any
    other dynamic type, the nil interface included. *)
Definition assert_string (v : value) : res string :=
  match v with VString s => Ret s | _ => Panic end.
Definition assert_bool (v : value) : res bool :=
  match v with VBool b => Ret b | _ => Panic end.
Definition assert_int (v : value) : res Z :=
  match v with VInt n => Ret n | _ => Panic end.
(** [x.(map[string]interface{})] *)
Definition assert_map (r : resource) : res (gmap string value) :=
  match r with RMap m => Ret m | ROther _ => Panic end.

(** [uint(n)] for an [int] n on a 64-bit platform. *)
Definition uint (n : Z) : Z := n mod 2 ^ 64.

(** ** Records of the API client *)

Module Kafka.
(** The fields of [gofastly.Kafka] that [flattenKafka] reads. *)
Record t : Type := Build {
  Name : string;
  Topic : string;
  Brokers : string;
  CompressionCodec : string;
  RequiredACKs : string;
  UseTLS : bool;
  TLSCACert : string;
  TLSClientCert : string;
  TLSClientKey : string;
  TLSHostname : string;
  Format : string;
  FormatVersion : Z;
  Placement : string;
  ResponseCondition : string;
  ParseLogKeyvals : bool;
  RequestMaxBytes : Z;
  AuthMethod : string;
  User : string;
  Password : string
}.
End Kafka.

Module DeleteKafkaInput.
Record t : Type := Build {
  ServiceID : string;
  ServiceVersion : Z;
  Name : string
}.
End DeleteKafkaInput.

Module CreateKafkaInput.
(** [Compatibool] is a named [bool]. *)
Record t : Type := Build {
  ServiceID : string;
  ServiceVersion : Z;
  Name : string;
  Brokers : string;
  Topic : string;
  RequiredACKs : string;
  UseTLS : bool;
  CompressionCodec : string;
  TLSCACert : string;
  TLSClientCert : string;
  TLSClientKey : string;
  TLSHostname : string;
  Format : string;
  FormatVersion : Z;
  Placement : string;
  ResponseCondition : string;
  ParseLogKeyvals : bool;
  RequestMaxBytes : Z;
  AuthMethod : string;
  User : string;
  Password : string
}.
End CreateKafkaInput.

Module UpdateKafkaInput.
(** The fields of [gofastly.UpdateKafkaInput] that [Process] writes. The
    pointer fields are options: [None] is the nil pointer, the zero value
    that leaves the attribute out of the request. *)
Record t : Type := Build {
  ServiceID : string;
  ServiceVersion : Z;
  Name : string;
  Brokers : option string;
  Topic : option string;
  RequiredACKs : option string;
  UseTLS : option bool;
  CompressionCodec : option string;
  Format : option string;
  FormatVersion : option Z;
  ResponseCondition : option string;
  Placement : option string;
  TLSCACert : option string;
  TLSHostname : option string;
  TLSClientCert : option string;
  TLSClientKey : option string;
  ParseLogKeyvals : option bool;
  RequestMaxBytes : option Z;
  AuthMethod : option string;
  User : option string;
  Password : option string
}.
End UpdateKafkaInput.

Module VCLLoggingAttributes.
(** The fields of the handler's VCL attributes that [buildCreate] reads.
    The struct is declared with the default handler, outside the sources;
    [formatVersion] is what [uintOrDefault] takes, a [uint] or nil. *)
Record t : Type := Build {
  format : string;
  formatVersion : option Z;
  placement : string;
  responseCondition : string
}.
End VCLLoggingAttributes.

(** A request sent through the [gofastly.Client]. *)
Inductive api_call : Type :=
  | CallDeleteKafka (i : DeleteKafkaInput.t)
  | CallCreateKafka (i : CreateKafkaInput.t)
  | CallUpdateKafka (i : UpdateKafkaInput.t).

(** A request together with the [error] the client answered ([None]: nil). *)
Definition event : Type := api_call * option error.

(** ** flattenKafka *)

(** The map literal built for one endpoint. *)
Definition flatKafka (s : Kafka.t) : gmap string value :=
  list_to_map
    [ ("name", VString (Kafka.Name s));
      ("topic", VString (Kafka.Topic s));
      ("brokers", VString (Kafka.Brokers s));
      ("compression_codec", VString (Kafka.CompressionCodec s));
      ("required_acks", VString (Kafka.RequiredACKs s));
      ("use_tls", VBool (Kafka.UseTLS s));
      ("tls_ca_cert", VString (Kafka.TLSCACert s));
      ("tls_client_cert", VString (Kafka.TLSClientCert s));
      ("tls_client_key", VString (Kafka.TLSClientKey s));
      ("tls_hostname", VString (Kafka.TLSHostname s));
      ("format", VString (Kafka.Format s));
      ("format_version", VUint (Kafka.FormatVersion s));
      ("placement", VString (Kafka.Placement s));
      ("response_condition", VString (Kafka.ResponseCondition s));
      ("parse_log_keyvals", VBool (Kafka.ParseLogKeyvals s));
      ("request_max_bytes", VUint (Kafka.RequestMaxBytes s));
      ("auth_method", VString (Kafka.AuthMethod s));
      ("user", VString (Kafka.User s));
      ("password", VString (Kafka.Password s)) ].

(** [for k, v := range flatKafka { if v == "" { delete(flatKafka, k) } }]:
    the entries are visited once each, in some order, and the visited key
    is deleted from the map being built. *)
Definition prune_step (k : string) (v : value) (acc : gmap string value)
  : gmap string value :=
  if decide (v = VString "") then delete k acc else acc.

Definition prune (m : gmap string value) : gmap string value :=
  map_fold prune_step m m.

Definition flattenKafka (kafkaList : list Kafka.t) : list (gmap string value) :=
  foldl (λ flattened s, flattened ++ [prune (flatKafka s)]) [] kafkaList.


(** ** Set reconciliation *)

Module DiffResult.
Record t : Type := Build {
  Added : list resource;
  Modified : list resource;
  Deleted : list resource
}.
End DiffResult.

Global Instance res_eq_dec {A : Type} `{EqDecision A} : EqDecision (res A).
Proof. solve_decision. Defined.

(** The key extractor that [Process] hands to [NewSetDiff]. *)
Definition nameKey (resource : resource) : res value :=
  match resource with
  | RMap t => Ret (index t "name")
  | ROther _ => Raise (Errorf_type_asserted resource)
  end.

(** Modelled from the spec: part of [SetDiff.Diff], which is not among the
    sources. Every record of a set is paired with its key, in the order of
    the set; the first failed extraction is the outcome. *)
Fixpoint extract_keys (computeKey : resource → res value) (l : list resource)
  : res (list (value * resource)) :=
  match l with
  | [] => Ret []
  | r :: l' =>
      k ← computeKey r;
      kl ← extract_keys computeKey l';
      Ret ((k, r) :: kl)
  end.

(** Modelled from the spec: part of [SetDiff.Diff]. The first record
    stored under key [k], if any. *)
Definition lookup_key (k : value) (kl : list (value * resource)) : option resource :=
  snd <$> find (λ kr, bool_decide (kr.1 = k)) kl.

(** Modelled from the spec: part of [SetDiff.Diff]. The old set has a
    record under the key of [kr], and it is not the record of [kr]. *)
Definition differs_from (oldKeyed : list (value * resource)) (kr : value * resource) : bool :=
  match lookup_key kr.1 oldKeyed with
  | Some o => bool_decide (o ≠ kr.2)
  | None => false
  end.

(** Modelled from the spec: [SetDiff.Diff] (the set-reconciliation utility
    behind [NewSetDiff]) is not among the sources. Following the spec, the
    old and the new records are keyed by the extractor, a failed extraction
    aborts with its error, and the result has three partitions: Added (in
    new, key not in old), Deleted (in old, key not in new) and Modified (in
    both, the records differing). [Process] compares a Modified record with
    the old set, so Modified holds the new records. The partitions keep the
    order of the sets they are taken from. *)
Definition Diff (computeKey : resource → res value) (oldSet newSet : list resource)
  : res DiffResult.t :=
  oldKeyed ← extract_keys computeKey oldSet;
  newKeyed ← extract_keys computeKey newSet;
  Ret {| DiffResult.Added :=
           (filter (λ kr, lookup_key kr.1 oldKeyed = None) newKeyed).*2;
         DiffResult.Modified :=
           (filter (λ kr, differs_from oldKeyed kr) newKeyed).*2;
         DiffResult.Deleted :=
           (filter (λ kr, lookup_key kr.1 newKeyed = None) oldKeyed).*2 |}.

(** Modelled from the spec: part of [SetDiff.Filter]. The first record of
    [oldSet] whose key is [k]. *)
Definition counterpart (computeKey : resource → res value) (k : value)
    (oldSet : list resource) : option resource :=
  find (λ o, bool_decide (computeKey o = Ret k)) oldSet.

(** Modelled from the spec: [SetDiff.Filter] is not among the sources.
    Following the spec, it surfaces only the changed fields of a modified
    record: the fields of [modified] whose value is not the value the old
    record with the same key has for that field. Without such an old record
    there is nothing to surface. *)
Definition Filter (computeKey : resource → res value)
    (modified : gmap string value) (oldSet : list resource) : gmap string value :=
  match computeKey (RMap modified) with
  | Ret k =>
      match counterpart computeKey k oldSet with
      | Some (RMap o) => filter (λ kv, o !! kv.1 ≠ Some kv.2) modified
      | _ => ∅
      end
  | _ => ∅
  end.

(** ** Views of a request *)

Definition call_service (c : api_call) : string :=
  match c with
  | CallDeleteKafka i => DeleteKafkaInput.ServiceID i
  | CallCreateKafka i => CreateKafkaInput.ServiceID i
  | CallUpdateKafka i => UpdateKafkaInput.ServiceID i
  end.

Definition call_version (c : api_call) : Z :=
  match c with
  | CallDeleteKafka i => DeleteKafkaInput.ServiceVersion i
  | CallCreateKafka i => CreateKafkaInput.ServiceVersion i
  | CallUpdateKafka i => UpdateKafkaInput.ServiceVersion i
  end.

Definition call_name (c : api_call) : string :=
  match c with
  | CallDeleteKafka i => DeleteKafkaInput.Name i
  | CallCreateKafka i => CreateKafkaInput.Name i
  | CallUpdateKafka i => UpdateKafkaInput.Name i
  end.

Definition is_delete (c : api_call) : bool :=
  match c with CallDeleteKafka _ => true | _ => false end.
Definition is_create (c : api_call) : bool :=
  match c with CallCreateKafka _ => true | _ => false end.
Definition is_update (c : api_call) : bool :=
  match c with CallUpdateKafka _ => true | _ => false end.

(** The answer to a call is a 404 on a delete: the one error that
    [deleteKafka] turns into success. *)
Definition not_found_on_delete (c : api_call) (e : error) : Prop :=
  is_delete c = true ∧ ∃ errs, e = HTTPError 404 errs.

(** An answered call that does not stop the pass. *)
Definition benign (ev : event) : Prop :=
  match ev.2 with
  | None => True
  | Some e => not_found_on_delete ev.1 e
  end.

(** What [deleteKafka] returns for an answer of the client, and what
    [createKafka] and the update call return for it. *)
Definition after_delete (err : option error) : res unit :=
  match err with
  | Some (HTTPError StatusCode errs) =>
      if decide (StatusCode ≠ 404) then Raise (HTTPError StatusCode errs) else Ret tt
  | Some e => Raise e
  | None => Ret tt
  end.

Definition after_call (err : option error) : res unit :=
  match err with
  | Some e => Raise e
  | None => Ret tt
  end.

(** A property of the outcome and the calls of a pass that is kept by
    running one successful part after another. *)
Definition sequential (R : res unit → list event → Prop) : Prop :=
  R (Ret tt) [] ∧
  ∀ t1 r t2, R (Ret tt) t1 → R r t2 → R r (t1 ++ t2).

(** The calls of a pass stopped by at most its last call: every call
    before it was answered without error or with a 404 on a delete, and a
    call answered otherwise is the last one and its error is the outcome. *)
Definition stops_at_first_failure (r : res unit) (t : list event) : Prop :=
  Forall benign t ∨
  ∃ t0 c e, t = t0 ++ [(c, Some e)] ∧ Forall benign t0 ∧ r = Raise e.

(** The pointer fields of an update request under the name of the block
    attribute they carry, each as the dynamic value it points to. *)
Definition pointer_fields (opts : UpdateKafkaInput.t) : list (string * option value) :=
  [ ("brokers", VString <$> UpdateKafkaInput.Brokers opts);
    ("topic", VString <$> UpdateKafkaInput.Topic opts);
    ("required_acks", VString <$> UpdateKafkaInput.RequiredACKs opts);
    ("use_tls", VBool <$> UpdateKafkaInput.UseTLS opts);
    ("compression_codec", VString <$> UpdateKafkaInput.CompressionCodec opts);
    ("format", VString <$> UpdateKafkaInput.Format opts);
    ("format_version", VUint <$> UpdateKafkaInput.FormatVersion opts);
    ("response_condition", VString <$> UpdateKafkaInput.ResponseCondition opts);
    ("placement", VString <$> UpdateKafkaInput.Placement opts);
    ("tls_ca_cert", VString <$> UpdateKafkaInput.TLSCACert opts);
    ("tls_hostname", VString <$> UpdateKafkaInput.TLSHostname opts);
    ("tls_client_cert", VString <$> UpdateKafkaInput.TLSClientCert opts);
    ("tls_client_key", VString <$> UpdateKafkaInput.TLSClientKey opts);
    ("parse_log_keyvals", VBool <$> UpdateKafkaInput.ParseLogKeyvals opts);
    ("request_max_bytes", VUint <$> UpdateKafkaInput.RequestMaxBytes opts);
    ("auth_method", VString <$> UpdateKafkaInput.AuthMethod opts);
    ("user", VString <$> UpdateKafkaInput.User opts);
    ("password", VString <$> UpdateKafkaInput.Password opts) ].

(** A block value as an update request carries it: an [int] becomes the
    [uint] it converts to, the other values are kept. *)
Definition as_sent (v : value) : value :=
  match v with
  | VInt n => VUint (uint n)
  | _ => v
  end.

(** The partition of a diff result that a call belongs to. *)
Definition partition_of (dr : DiffResult.t) (c : api_call) : list resource :=
  match c with
  | CallDeleteKafka _ => DiffResult.Deleted dr
  | CallCreateKafka _ => DiffResult.Added dr
  | CallUpdateKafka _ => DiffResult.Modified dr
  end.

(** A call is addressed to the service and the version of the pass, and to
    the endpoint whose name is the key of a record of its partition. *)
Definition names_record_of (serviceID : string) (latestVersion : Z)
    (dr : DiffResult.t) (c : api_call) : Prop :=
  call_service c = serviceID ∧
  call_version c = latestVersion ∧
  ∃ m, RMap m ∈ partition_of dr c
       ∧ nameKey (RMap m) = Ret (VString (call_name c)).

(** The records of the new set that the old set holds as they are. *)
Definition Unchanged (oldSet newSet : list resource) : list resource :=
  filter (λ r, r ∈ oldSet) newSet.

(** The record has a [name] that is a non-empty string: the records the
    create loop does not skip. *)
Definition has_name (x : resource) : bool :=
  match x with
  | RMap m =>
      match m !! "name" with
      | Some (VString name) => bool_decide (name ≠ "")
      | _ => false
      end
  | ROther _ => false
  end.

(** ** The schema of a block *)

(** The type that [Register] gives an attribute: [TypeString], [TypeBool]
    or [TypeInt]. *)
Inductive value_type : Type := TypeString | TypeBool | TypeInt.

Definition has_type (ty : value_type) (v : value) : bool :=
  match ty, v with
  | TypeString, VString _ => true
  | TypeBool, VBool _ => true
  | TypeInt, VInt _ => true
  | _, _ => false
  end.

(** The attributes that [Register] declares for both service types. *)
Definition blockAttributes : list (string * value_type) :=
  [ ("name", TypeString); ("topic", TypeString); ("brokers", TypeString);
    ("compression_codec", TypeString); ("required_acks", TypeString);
    ("use_tls", TypeBool); ("tls_ca_cert", TypeString);
    ("tls_client_cert", TypeString); ("tls_client_key", TypeString);
    ("tls_hostname", TypeString); ("parse_log_keyvals", TypeBool);
    ("request_max_bytes", TypeInt); ("auth_method", TypeString);
    ("user", TypeString); ("password", TypeString) ].

(** The attributes added for the VCL service type. *)
Definition vclAttributes : list (string * value_type) :=
  [ ("format", TypeString); ("format_version", TypeInt);
    ("placement", TypeString); ("response_condition", TypeString) ].

(** A block that follows the schema: every attribute of [blockAttributes]
    is there with its type, and a VCL attribute that is there has its
    type. *)
Definition schema_typed (x : resource) : Prop :=
  ∃ m, x = RMap m ∧
    Forall (λ kt, ∃ v, m !! kt.1 = Some v ∧ has_type kt.2 v = true) blockAttributes ∧
    Forall (λ kt, ∀ v, m !! kt.1 = Some v → has_type kt.2 v = true) vclAttributes.

(** ** Views used by the properties of the builders and of flattenKafka *)

(** The entries of the map literal of [flattenKafka], in the order of the
    source. *)
Definition kafka_attributes (s : Kafka.t) : list (string * value) :=
  [ ("name", VString (Kafka.Name s));
    ("topic", VString (Kafka.Topic s));
    ("brokers", VString (Kafka.Brokers s));
    ("compression_codec", VString (Kafka.CompressionCodec s));
    ("required_acks", VString (Kafka.RequiredACKs s));
    ("use_tls", VBool (Kafka.UseTLS s));
    ("tls_ca_cert", VString (Kafka.TLSCACert s));
    ("tls_client_cert", VString (Kafka.TLSClientCert s));
    ("tls_client_key", VString (Kafka.TLSClientKey s));
    ("tls_hostname", VString (Kafka.TLSHostname s));
    ("format", VString (Kafka.Format s));
    ("format_version", VUint (Kafka.FormatVersion s));
    ("placement", VString (Kafka.Placement s));
    ("response_condition", VString (Kafka.ResponseCondition s));
    ("parse_log_keyvals", VBool (Kafka.ParseLogKeyvals s));
    ("request_max_bytes", VUint (Kafka.RequestMaxBytes s));
    ("auth_method", VString (Kafka.AuthMethod s));
    ("user", VString (Kafka.User s));
    ("password", VString (Kafka.Password s)) ].

(** The fields of a create request that [buildCreate] reads from the
    block, under the name of the attribute they are read from. *)
Definition create_fields (opts : CreateKafkaInput.t) : list (string * value) :=
  [ ("name", VString (CreateKafkaInput.Name opts));
    ("brokers", VString (CreateKafkaInput.Brokers opts));
    ("topic", VString (CreateKafkaInput.Topic opts));
    ("required_acks", VString (CreateKafkaInput.RequiredACKs opts));
    ("use_tls", VBool (CreateKafkaInput.UseTLS opts));
    ("compression_codec", VString (CreateKafkaInput.CompressionCodec opts));
    ("tls_ca_cert", VString (CreateKafkaInput.TLSCACert opts));
    ("tls_client_cert", VString (CreateKafkaInput.TLSClientCert opts));
    ("tls_client_key", VString (CreateKafkaInput.TLSClientKey opts));
    ("tls_hostname", VString (CreateKafkaInput.TLSHostname opts));
    ("parse_log_keyvals", VBool (CreateKafkaInput.ParseLogKeyvals opts));
    ("request_max_bytes", VUint (CreateKafkaInput.RequestMaxBytes opts));
    ("auth_method", VString (CreateKafkaInput.AuthMethod opts));
    ("user", VString (CreateKafkaInput.User opts));
    ("password", VString (CreateKafkaInput.Password opts)) ].

(** ** Register *)

Module Schema.
(** The [StateFunc] and the [ValidateFunc]s that [Register] refers to;
    they are declared outside this file of the sources. *)
Inductive state_func : Type := trimSpaceStateFunc.
Inductive validate_func : Type :=
  | validateLoggingFormatVersion
  | validateLoggingPlacement.

(** The fields of a [schema.Schema] that [Register] sets for an attribute
    of the block; a field left out of the literal has its zero value. *)
Record attribute : Type := Attribute {
  Type_ : value_type;
  Required : bool;
  Optional : bool;
  Default : option value;
  Description : string;
  Sensitive : bool;
  StateFunc : option state_func;
  ValidateFunc : option validate_func
}.

(** An entry of the schema map of a resource: a [TypeSet] of blocks with
    the attributes of its [Elem], or a schema of another handler. *)
Inductive t : Type :=
  | TypeSet (Optional : bool) (Elem : gmap string attribute)
  | OtherSchema (id : nat).
End Schema.

(** The local [blockAttributes] of [Register]: the literal, then the four
    attributes added for the VCL service type. *)
Definition registered_attributes (isVCL : bool) : gmap string Schema.attribute :=
  let blockAttributes : gmap string Schema.attribute :=
    list_to_map
      [ ("name",
         Schema.Attribute TypeString true false None
           "The unique name of the Kafka logging endpoint. It is important to note that changing this attribute will delete and recreate the resource"
           false None None);
        ("topic",
         Schema.Attribute TypeString true false None
           "The Kafka topic to send logs to" false None None);
        ("brokers",
         Schema.Attribute TypeString true false None
           "A comma-separated list of IP addresses or hostnames of Kafka brokers"
           false None None);
        ("compression_codec",
         Schema.Attribute TypeString false true None
           "The codec used for compression of your logs. One of: `gzip`, `snappy`, `lz4`"
           false None None);
        ("required_acks",
         Schema.Attribute TypeString false true None
           "The Number of acknowledgements a leader must receive before a write is considered successful. One of: `1` (default) One server needs to respond. `0` No servers need to respond. `-1`	Wait for all in-sync replicas to respond"
           false None None);
        ("use_tls",
         Schema.Attribute TypeBool false true (Some (VBool false))
           "Whether to use TLS for secure logging. Can be either `true` or `false`"
           false None None);
        ("tls_ca_cert",
         Schema.Attribute TypeString false true None
           "A secure certificate to authenticate the server with. Must be in PEM format"
           true (Some Schema.trimSpaceStateFunc) None);
        ("tls_client_cert",
         Schema.Attribute TypeString false true None
           "The client certificate used to make authenticated requests. Must be in PEM format"
           true (Some Schema.trimSpaceStateFunc) None);
        ("tls_client_key",
         Schema.Attribute TypeString false true None
           "The client private key used to make authenticated requests. Must be in PEM format"
           true (Some Schema.trimSpaceStateFunc) None);
        ("tls_hostname",
         Schema.Attribute TypeString false true None
           "The hostname used to verify the server's certificate. It can either be the Common Name or a Subject Alternative Name (SAN)"
           false None None);
        ("parse_log_keyvals",
         Schema.Attribute TypeBool false true (Some (VBool false))
           "Enables parsing of key=value tuples from the beginning of a logline, turning them into record headers"
           false None None);
        ("request_max_bytes",
         Schema.Attribute TypeInt false true None
           "Maximum size of log batch, if non-zero. Defaults to 0 for unbounded"
           false None None);
        ("auth_method",
         Schema.Attribute TypeString false true None
           "SASL authentication method. One of: plain, scram-sha-256, scram-sha-512"
           false None None);
        ("user",
         Schema.Attribute TypeString false true None "SASL User" false None None);
        ("password",
         Schema.Attribute TypeString false true None "SASL Pass" false None None) ]
  in
  if isVCL then
    <["response_condition" :=
        Schema.Attribute TypeString false true None
          "The name of an existing condition in the configured endpoint, or leave blank to always execute."
          false None None]>
    (<["placement" :=
        Schema.Attribute TypeString false true None
          "Where in the generated VCL the logging call should be placed."
          false None (Some Schema.validateLoggingPlacement)]>
    (<["format_version" :=
        Schema.Attribute TypeInt false true (Some (VInt 2))
          "The version of the custom logging format used for the configured endpoint. Can be either 1 or 2. (default: 2)."
          false None (Some Schema.validateLoggingFormatVersion)]>
    (<["format" :=
        Schema.Attribute TypeString false true None
          "Apache style log formatting." false None None]>
     blockAttributes)))
  else blockAttributes.

(** [Register]: [key] is [h.GetKey()], [isVCL] is the outcome of
    [h.GetServiceMetadata().serviceType == ServiceTypeVCL] and [s] is the
    map [s.Schema]; the result is the map after the call and the returned
    [error]. *)
Definition Register (key : string) (isVCL : bool) (s : gmap string Schema.t)
  : gmap string Schema.t * option error :=
  (<[key := Schema.TypeSet true (registered_attributes isVCL)]> s, None).

(** A block as the SDK hands it over for a [TypeSet] of blocks: it has
    exactly the attributes of the schema of the block, each with a value
    of the type of the attribute. *)
Definition conforms (schema : gmap string Schema.attribute)
    (m : gmap string value) : Prop :=
  ∀ k, match schema !! k, m !! k with
       | Some a, Some v => has_type (Schema.Type_ a) v = true
       | None, None => True
       | _, _ => False
       end.

(** ** Read *)

Module ListKafkasInput.
Record t : Type := Build {
  ServiceID : string;
  ServiceVersion : Z
}.
End ListKafkasInput.

(** The error that [Read] builds with [fmt.Errorf] from the id of the
    resource, the version and the error of the client. *)
Inductive read_error : Type :=
  | Errorf_looking_up (id : string) (version : Z) (err : error).

Section Reader.
(** The service, answering [ListKafkas], and the resource data, with its
    [Set] method. *)
Context {St D : Type}.
Variable ListKafkas : St → ListKafkasInput.t → list Kafka.t * option error * St.
Variable d_Set : D → string → list (gmap string value) → option error * D.

(** [Read]: [key] is [h.GetKey()], [id] is [d.Id()] and [version] is
    [s.ActiveVersion.Number]. The result is the returned [error], the
    resource data and the state of the service after the call. *)
Definition Read (key id : string) (version : Z) (d : D) (s : St)
  : option read_error * D * St :=
  let '(kafkaList, err, s') :=
    ListKafkas s {| ListKafkasInput.ServiceID := id;
                    ListKafkasInput.ServiceVersion := version |} in
  match err with
  | Some e => (Some (Errorf_looking_up id version e), d, s')
  | None =>
      let kafkaLogList := flattenKafka kafkaList in
      let '(_, d') := d_Set d key kafkaLogList in
      (None, d', s')
  end.
End Reader.

(** ** Sample data *)

Module Sample.
(** A block as the schema fills it in. *)
Definition block (name topic : string) : gmap string value :=
  list_to_map
    [ ("name", VString name); ("topic", VString topic);
      ("brokers", VString "kafka:9092"); ("compression_codec", VString "");
      ("required_acks", VString "1"); ("use_tls", VBool false);
      ("tls_ca_cert", VString ""); ("tls_client_cert", VString "");
      ("tls_client_key", VString ""); ("tls_hostname", VString "");
      ("parse_log_keyvals", VBool false); ("request_max_bytes", VInt 0);
      ("auth_method", VString ""); ("user", VString "");
      ("password", VString "") ].

Definition vcl (df : gmap string value) : res VCLLoggingAttributes.t :=
  Ret (VCLLoggingAttributes.Build "" None "none" "").
Definition uint_or_default (o : option Z) : Z := default 0 o.

(** A service that accepts every call. *)
Definition accept (s : unit) (c : api_call) : option error * unit := (None, s).
(** A service on which no endpoint exists: deletes answer 404. *)
Definition absent (s : unit) (c : api_call) : option error * unit :=
  (if is_delete c then Some (HTTPError 404 []) else None, s).
(** A service that answers every call with a server error. *)
Definition broken (s : unit) (c : api_call) : option error * unit :=
  (Some (HTTPError 500 ["internal"]), s).

(** Two endpoints in the old state, of which [a] changes its topic and [b]
    goes away, and a new endpoint [c]; [defunct] is an entry with an empty
    name, as a set read back through a [StateFunc] may hold. *)
Definition a_old : resource := RMap (block "a" "logs").
Definition a_new : resource := RMap (block "a" "audit").
Definition b : resource := RMap (block "b" "logs").
Definition c : resource := RMap (block "c" "logs").
Definition defunct : resource := RMap (block "" "logs").
Definition old_set : list resource := [a_old; b].
Definition new_set : list resource := [a_new; c; defunct].

(** A block with a negative size limit, and a block without a name. *)
Definition negative_limit : gmap string value :=
  <["request_max_bytes" := VInt (-1)]> (block "n" "logs").
Definition unnamed : gmap string value := delete "name" (block "" "logs").

(** An endpoint as the API lists it, a service that lists it, and resource
    data that refuses every [Set]. *)
Definition endpoint : Kafka.t :=
  Kafka.Build "ep" "logs" "kafka:9092" "" "1" false "" "" "" "" "" 2 "none" ""
    false 0 "" "" "".
Definition lists (s : unit) (i : ListKafkasInput.t)
  : list Kafka.t * option error * unit := ([endpoint; endpoint], None, s).
Definition refuses (d : unit) (key : string) (l : list (gmap string value))
  : option error * unit := (Some (OtherError "refused"), d).
End Sample.

(** ** The handler *)

Section Handler.
(** The remote service: its state and how the client answers a call. *)
Context {St : Type}.
Variable conn : St → api_call → option error * St.

(** Helpers of the default handler that are not among the sources; they
    only fill the VCL fields of a create request. *)
Variable getVCLLoggingAttributes : gmap string value → res VCLLoggingAttributes.t.
Variable uintOrDefault : option Z → Z.

(** A computation that talks to the API: from a state of the service to
    an outcome, the new state and the calls issued, oldest first. *)
Definition M (A : Type) : Type := St → res A * St * list event.

Global Instance M_ret : MRet M := λ A a s, (Ret a, s, []).
Global Instance M_bind : MBind M := λ A B f m s,
  match m s with
  | (Ret a, s', t) => let '(r, s'', t') := f a s' in (r, s'', t ++ t')
  | (Raise e, s', t) => (Raise e, s', t)
  | (Panic, s', t) => (Panic, s', t)
  end.

Definition lift {A : Type} (r : res A) : M A := λ s, (r, s, []).

Definition call (c : api_call) : M (option error) := λ s,
  let '(err, s') := conn s c in (Ret err, s', [(c, err)]).

(** [return err] in a function whose result is [error]. *)
Definition return_error (err : option error) : M unit :=
  match err with
  | Some e => lift (Raise e)
  | None => mret tt
  end.

(** [for _, x := range l { body }] *)
Fixpoint for_range {A : Type} (l : list A) (body : A → M unit) : M unit :=
  match l with
  | [] => mret tt
  | x :: l' => body x ;; for_range l' body
  end.

Definition createKafka (i : CreateKafkaInput.t) : M unit :=
  err ← call (CallCreateKafka i);
  return_error err.

Definition deleteKafka (i : DeleteKafkaInput.t) : M unit :=
  err ← call (CallDeleteKafka i);
  match err with
  | Some (HTTPError StatusCode _) =>
      if decide (StatusCode ≠ 404) then return_error err else mret tt
  | Some _ => return_error err
  | None => mret tt
  end.

Definition updateKafka (i : UpdateKafkaInput.t) : M unit :=
  err ← call (CallUpdateKafka i);
  return_error err.

Definition buildDelete (kafkaMap : resource) (serviceID : string)
    (serviceVersion : Z) : res DeleteKafkaInput.t :=
  df ← assert_map kafkaMap;
  name ← assert_string (index df "name");
  Ret {| DeleteKafkaInput.ServiceID := serviceID;
         DeleteKafkaInput.ServiceVersion := serviceVersion;
         DeleteKafkaInput.Name := name |}.

Definition buildCreate (kafkaMap : resource) (serviceID : string)
    (serviceVersion : Z) : res CreateKafkaInput.t :=
  df ← assert_map kafkaMap;
  vla ← getVCLLoggingAttributes df;
  name ← assert_string (index df "name");
  brokers ← assert_string (index df "brokers");
  topic ← assert_string (index df "topic");
  required_acks ← assert_string (index df "required_acks");
  use_tls ← assert_bool (index df "use_tls");
  compression_codec ← assert_string (index df "compression_codec");
  tls_ca_cert ← assert_string (index df "tls_ca_cert");
  tls_client_cert ← assert_string (index df "tls_client_cert");
  tls_client_key ← assert_string (index df "tls_client_key");
  tls_hostname ← assert_string (index df "tls_hostname");
  parse_log_keyvals ← assert_bool (index df "parse_log_keyvals");
  request_max_bytes ← assert_int (index df "request_max_bytes");
  auth_method ← assert_string (index df "auth_method");
  user ← assert_string (index df "user");
  password ← assert_string (index df "password");
  Ret {| CreateKafkaInput.ServiceID := serviceID;
         CreateKafkaInput.ServiceVersion := serviceVersion;
         CreateKafkaInput.Name := name;
         CreateKafkaInput.Brokers := brokers;
         CreateKafkaInput.Topic := topic;
         CreateKafkaInput.RequiredACKs := required_acks;
         CreateKafkaInput.UseTLS := use_tls;
         CreateKafkaInput.CompressionCodec := compression_codec;
         CreateKafkaInput.TLSCACert := tls_ca_cert;
         CreateKafkaInput.TLSClientCert := tls_client_cert;
         CreateKafkaInput.TLSClientKey := tls_client_key;
         CreateKafkaInput.TLSHostname := tls_hostname;
         CreateKafkaInput.Format := VCLLoggingAttributes.format vla;
         CreateKafkaInput.FormatVersion :=
           uintOrDefault (VCLLoggingAttributes.formatVersion vla);
         CreateKafkaInput.Placement := VCLLoggingAttributes.placement vla;
         CreateKafkaInput.ResponseCondition :=
           VCLLoggingAttributes.responseCondition vla;
         CreateKafkaInput.ParseLogKeyvals := parse_log_keyvals;
         CreateKafkaInput.RequestMaxBytes := uint request_max_bytes;
         CreateKafkaInput.AuthMethod := auth_method;
         CreateKafkaInput.User := user;
         CreateKafkaInput.Password := password |}.

(** [if v, ok := modified[k]; ok { opts.F = gofastly.String(v.(string)) }]
    and its [CBool] and [Uint(uint(v.(int)))] variants: the field stays
    nil when the key is absent. *)
Definition changed_string (o : option value) : res (option string) :=
  match o with
  | Some v => s ← assert_string v; Ret (Some s)
  | None => Ret None
  end.
Definition changed_bool (o : option value) : res (option bool) :=
  match o with
  | Some v => b ← assert_bool v; Ret (Some b)
  | None => Ret None
  end.
Definition changed_uint (o : option value) : res (option Z) :=
  match o with
  | Some v => n ← assert_int v; Ret (Some (uint n))
  | None => Ret None
  end.

(** The update request that the last loop of [Process] builds for a
    modified record, given the fields selected by [Filter]. *)
Definition buildUpdate (resource modified : gmap string value)
    (serviceID : string) (latestVersion : Z) : res UpdateKafkaInput.t :=
  name ← assert_string (index resource "name");
  brokers ← changed_string (modified !! "brokers");
  topic ← changed_string (modified !! "topic");
  required_acks ← changed_string (modified !! "required_acks");
  use_tls ← changed_bool (modified !! "use_tls");
  compression_codec ← changed_string (modified !! "compression_codec");
  format ← changed_string (modified !! "format");
  format_version ← changed_uint (modified !! "format_version");
  response_condition ← changed_string (modified !! "response_condition");
  placement ← changed_string (modified !! "placement");
  tls_ca_cert ← changed_string (modified !! "tls_ca_cert");
  tls_hostname ← changed_string (modified !! "tls_hostname");
  tls_client_cert ← changed_string (modified !! "tls_client_cert");
  tls_client_key ← changed_string (modified !! "tls_client_key");
  parse_log_keyvals ← changed_bool (modified !! "parse_log_keyvals");
  request_max_bytes ← changed_uint (modified !! "request_max_bytes");
  auth_method ← changed_string (modified !! "auth_method");
  user ← changed_string (modified !! "user");
  password ← changed_string (modified !! "password");
  Ret {| UpdateKafkaInput.ServiceID := serviceID;
         UpdateKafkaInput.ServiceVersion := latestVersion;
         UpdateKafkaInput.Name := name;
         UpdateKafkaInput.Brokers := brokers;
         UpdateKafkaInput.Topic := topic;
         UpdateKafkaInput.RequiredACKs := required_acks;
         UpdateKafkaInput.UseTLS := use_tls;
         UpdateKafkaInput.CompressionCodec := compression_codec;
         UpdateKafkaInput.Format := format;
         UpdateKafkaInput.FormatVersion := format_version;
         UpdateKafkaInput.ResponseCondition := response_condition;
         UpdateKafkaInput.Placement := placement;
         UpdateKafkaInput.TLSCACert := tls_ca_cert;
         UpdateKafkaInput.TLSHostname := tls_hostname;
         UpdateKafkaInput.TLSClientCert := tls_client_cert;
         UpdateKafkaInput.TLSClientKey := tls_client_key;
         UpdateKafkaInput.ParseLogKeyvals := parse_log_keyvals;
         UpdateKafkaInput.RequestMaxBytes := request_max_bytes;
         UpdateKafkaInput.AuthMethod := auth_method;
         UpdateKafkaInput.User := user;
         UpdateKafkaInput.Password := password |}.

(** The three loop bodies of [Process]. *)
Definition delete_removed (serviceID : string) (latestVersion : Z)
    (resource : resource) : M unit :=
  resource ← lift (assert_map resource);
  opts ← lift (buildDelete (RMap resource) serviceID latestVersion);
  deleteKafka opts.

Definition create_new (serviceID : string) (latestVersion : Z)
    (resource : resource) : M unit :=
  resource ← lift (assert_map resource);
  match resource !! "name" with
  | None => mret tt
  | Some v =>
      name ← lift (assert_string v);
      if decide (name = "") then mret tt
      else
        opts ← lift (buildCreate (RMap resource) serviceID latestVersion);
        createKafka opts
  end.

Definition update_modified (serviceID : string) (latestVersion : Z)
    (oldSet : list resource) (resource : resource) : M unit :=
  resource ← lift (assert_map resource);
  opts ← lift (buildUpdate resource (Filter nameKey resource oldSet)
                 serviceID latestVersion);
  updateKafka opts.

(** The loops of [Process] over a diff result. *)
Definition reconcile (serviceID : string) (latestVersion : Z)
    (oldSet : list resource) (diffResult : DiffResult.t) : M unit :=
  for_range (DiffResult.Deleted diffResult) (delete_removed serviceID latestVersion) ;;
  for_range (DiffResult.Added diffResult) (create_new serviceID latestVersion) ;;
  for_range (DiffResult.Modified diffResult)
    (update_modified serviceID latestVersion oldSet).

(** [Process]: [serviceID] is [d.Id()], [oldLogCfg] and [newLogCfg] are
    the two results of [d.GetChange(h.GetKey())] ([None]: nil). *)
Definition Process (serviceID : string)
    (oldLogCfg newLogCfg : option (list resource)) (latestVersion : Z) : M unit :=
  let oldSet := default [] oldLogCfg in
  let newSet := default [] newLogCfg in
  diffResult ← lift (Diff nameKey oldSet newSet);
  reconcile serviceID latestVersion oldSet diffResult.

(** The calls [t] are, in some order, one delete request for each record
    of [dels], one create request for each record of [adds] and one update
    request for each record of [mods], and nothing else. *)
Definition issues_exactly (serviceID : string) (latestVersion : Z)
    (oldSet : list resource) (t : list event)
    (dels adds mods : list resource) : Prop :=
  ∃ ds cs us,
    Forall2 (λ x i, buildDelete x serviceID latestVersion = Ret i) dels ds ∧
    Forall2 (λ x i, buildCreate x serviceID latestVersion = Ret i) adds cs ∧
    Forall2 (λ x i, ∃ m, x = RMap m ∧
               buildUpdate m (Filter nameKey m oldSet) serviceID latestVersion = Ret i)
      mods us ∧
    t.*1 ≡ₚ (CallDeleteKafka <$> ds) ++ (CallCreateKafka <$> cs)
             ++ (CallUpdateKafka <$> us).

(** * Properties *)

(** *** Running a computation *)

Lemma bind_run {A B : Type} (m : M A) (f : A → M B) (s s2 : St)
    (r : res B) (t : list event) :
  (m ≫= f) s = (r, s2, t) →
  (∃ a s1 t1 t2, m s = (Ret a, s1, t1) ∧ f a s1 = (r, s2, t2) ∧ t = t1 ++ t2)
  ∨ (∃ e, m s = (Raise e, s2, t) ∧ r = Raise e)
  ∨ (m s = (Panic, s2, t) ∧ r = Panic).
Proof.
  unfold mbind, M_bind.
  destruct (m s) as [[[a|e|] s1] t1].
  - destruct (f a s1) as [[r' s''] t'] eqn:Hf. intros [= <- <- <-].
    left. by exists a, s1, t1, t'.
  - intros [= <- <- <-]. right; left. by exists e.
  - intros [= <- <- <-]. right; right. done.
Qed.

Lemma bind_Ret {A B : Type} (m : M A) (f : A → M B) (s s1 : St) (a : A)
    (t1 : list event) :
  m s = (Ret a, s1, t1) →
  (m ≫= f) s = (let '(r, s2, t2) := f a s1 in (r, s2, t1 ++ t2)).
Proof. unfold mbind, M_bind. by intros ->. Qed.

Lemma lift_bind {A B : Type} (x : res A) (f : A → M B) (s : St) :
  (lift x ≫= f) s =
    match x with
    | Ret a => f a s
    | Raise e => (Raise e, s, [])
    | Panic => (Panic, s, [])
    end.
Proof.
  unfold mbind, M_bind, lift. destruct x as [a|e|]; [|done..].
  by destruct (f a s) as [[r s'] t].
Qed.

Lemma for_range_app {A : Type} (l1 l2 : list A) (body : A → M unit) (s : St) :
  for_range (l1 ++ l2) body s = (for_range l1 body ;; for_range l2 body) s.
Proof.
  revert s. induction l1 as [|x l1 IH]; intros s; simpl.
  - unfold mbind, M_bind, mret, M_ret.
    by destruct (for_range l2 body s) as [[r s'] t].
  - unfold mbind, M_bind in *.
    destruct (body x s) as [[[[]|e|] s1] t1]; [|done..].
    rewrite IH.
    destruct (for_range l1 body s1) as [[[[]|e|] s2] t2]; [|done..].
    destruct (for_range l2 body s2) as [[r s3] t3].
    by rewrite app_assoc.
Qed.

(** *** deleteKafka *)

(** C3: a 404 answer to the delete call is success. *)
Theorem deleteKafka_not_found_is_success (i : DeleteKafkaInput.t) (s s' : St)
    (errs : list string) :
  conn s (CallDeleteKafka i) = (Some (HTTPError 404 errs), s') →
  deleteKafka i s = (Ret tt, s', [(CallDeleteKafka i, Some (HTTPError 404 errs))]).
Proof.
  intros Hconn. unfold deleteKafka, mbind, M_bind, call.
  rewrite Hconn. reflexivity.
Qed.

(** *** The create loop *)

(** C8: an added record without a name, or with the empty name, is
    skipped: its iteration issues no call and returns no error, and the
    create loop runs as if the record were not in the partition. *)
Theorem create_new_skips_unnamed (serviceID : string) (latestVersion : Z)
    (m : gmap string value) :
  m !! "name" = None ∨ m !! "name" = Some (VString "") →
  (∀ s, create_new serviceID latestVersion (RMap m) s = (Ret tt, s, []))
  ∧ (∀ before after s,
       for_range (before ++ RMap m :: after) (create_new serviceID latestVersion) s
       = for_range (before ++ after) (create_new serviceID latestVersion) s).
Proof.
  intros Hname.
  assert (∀ s, create_new serviceID latestVersion (RMap m) s = (Ret tt, s, [])) as Hskip.
  { intros s. unfold create_new. rewrite lift_bind. simpl.
    destruct Hname as [->| ->]; [done|].
    rewrite lift_bind. simpl. done. }
  split; [done|].
  intros before after s. rewrite !for_range_app.
  unfold mbind, M_bind.
  destruct (for_range before _ s) as [[[[]|e|] s1] t1]; [|done..].
  simpl. unfold mbind, M_bind. rewrite Hskip.
  by destruct (for_range after _ s1) as [[r s2] t2].
Qed.

(** *** The set reconciliation *)

Lemma extract_keys_elem (computeKey : resource → res value) (l : list resource)
    (kl : list (value * resource)) :
  extract_keys computeKey l = Ret kl →
  ∀ k r, (k, r) ∈ kl ↔ r ∈ l ∧ computeKey r = Ret k.
Proof.
  revert kl. induction l as [|x l IH]; intros kl; simpl.
  - intros [= <-] k r. rewrite !elem_of_nil. tauto.
  - unfold mbind, res_bind.
    destruct (computeKey x) as [kx| |] eqn:Hx; [|done..].
    destruct (extract_keys computeKey l) as [kl'| |]; [|done..].
    intros [= <-] k r. rewrite !elem_of_cons, (IH kl' eq_refl). split.
    + intros [[= -> ->]|[Hin Hk]]; (split; [|done]); [by left|by right].
    + intros [[->|Hin] Hk]; [left|by right]. f_equal. congruence.
Qed.

Lemma extract_keys_total (computeKey : resource → res value) (l : list resource) :
  (∀ r, r ∈ l → ∃ k, computeKey r = Ret k) →
  ∃ kl, extract_keys computeKey l = Ret kl.
Proof.
  induction l as [|x l IH]; intros Htot; simpl; [by eexists|].
  destruct (Htot x) as [k Hk]; [apply list_elem_of_here|].
  destruct IH as [kl Hkl].
  { intros r Hr. apply Htot. by apply list_elem_of_further. }
  unfold mbind, res_bind. rewrite Hk, Hkl. by eexists.
Qed.

Lemma lookup_key_counterpart (computeKey : resource → res value)
    (l : list resource) (kl : list (value * resource)) (k : value) :
  extract_keys computeKey l = Ret kl →
  lookup_key k kl = counterpart computeKey k l.
Proof.
  revert kl. induction l as [|x l IH]; intros kl; simpl.
  - by intros [= <-].
  - unfold mbind, res_bind.
    destruct (computeKey x) as [kx| |] eqn:Hx; [|done..].
    destruct (extract_keys computeKey l) as [kl'| |]; [|done..].
    intros [= <-]. specialize (IH kl' eq_refl).
    unfold lookup_key, counterpart in *. simpl. rewrite ?Hx.
    destruct (decide (kx = k)) as [->|Hne].
    + by rewrite !bool_decide_eq_true_2.
    + rewrite !bool_decide_eq_false_2; [done|congruence|done].
Qed.

Lemma counterpart_Some (computeKey : resource → res value) (k : value)
    (l : list resource) (o : resource) :
  counterpart computeKey k l = Some o → o ∈ l ∧ computeKey o = Ret k.
Proof.
  unfold counterpart. intros H. apply find_some in H as [Hin Hk].
  split; [by apply list_elem_of_In|]. by apply bool_decide_eq_true in Hk.
Qed.

Lemma counterpart_None (computeKey : resource → res value) (k : value)
    (l : list resource) :
  counterpart computeKey k l = None ↔ ∀ o, o ∈ l → computeKey o ≠ Ret k.
Proof.
  unfold counterpart. split.
  - intros H o Ho Hk. apply list_elem_of_In in Ho.
    pose proof (find_none _ _ H o Ho) as Hf. simpl in Hf.
    by rewrite bool_decide_eq_true_2 in Hf.
  - intros H. destruct (find _ l) as [o|] eqn:Hf; [|done].
    apply find_some in Hf as [Hin Hk]. apply bool_decide_eq_true in Hk.
    apply list_elem_of_In in Hin. by destruct (H o Hin).
Qed.

Lemma Diff_Ret_inv (computeKey : resource → res value) (old new : list resource)
    (dr : DiffResult.t) :
  Diff computeKey old new = Ret dr →
  ∃ oldKeyed newKeyed,
    extract_keys computeKey old = Ret oldKeyed ∧
    extract_keys computeKey new = Ret newKeyed ∧
    DiffResult.Added dr =
      (filter (λ kr, lookup_key kr.1 oldKeyed = None) newKeyed).*2 ∧
    DiffResult.Modified dr =
      (filter (λ kr, differs_from oldKeyed kr) newKeyed).*2 ∧
    DiffResult.Deleted dr =
      (filter (λ kr, lookup_key kr.1 newKeyed = None) oldKeyed).*2.
Proof.
  unfold Diff, mbind, res_bind.
  destruct (extract_keys computeKey old) as [okl| |]; [|done..].
  destruct (extract_keys computeKey new) as [nkl| |]; [|done..].
  intros [= <-]. by exists okl, nkl.
Qed.

Lemma Diff_total (computeKey : resource → res value) (old new : list resource) :
  (∀ r, r ∈ old ++ new → ∃ k, computeKey r = Ret k) →
  ∃ dr, Diff computeKey old new = Ret dr.
Proof.
  intros Htot. unfold Diff, mbind, res_bind.
  destruct (extract_keys_total computeKey old) as [okl ->].
  { intros r Hr. apply Htot, elem_of_app. by left. }
  destruct (extract_keys_total computeKey new) as [nkl ->].
  { intros r Hr. apply Htot, elem_of_app. by right. }
  by eexists.
Qed.

Lemma elem_of_filter_keyed (P : value * resource → Prop) `{∀ kr, Decision (P kr)}
    (kl : list (value * resource)) (r : resource) :
  r ∈ (filter P kl).*2 ↔ ∃ k, (k, r) ∈ kl ∧ P (k, r).
Proof.
  rewrite list_elem_of_fmap. split.
  - intros ([k r'] & -> & Hin). apply list_elem_of_filter in Hin as [HP Hin].
    by exists k.
  - intros (k & Hin & HP). exists (k, r). split; [done|].
    by apply list_elem_of_filter.
Qed.

Lemma Diff_Added (computeKey : resource → res value) (old new : list resource)
    (dr : DiffResult.t) (r : resource) :
  Diff computeKey old new = Ret dr →
  r ∈ DiffResult.Added dr ↔
    r ∈ new ∧ ∃ k, computeKey r = Ret k ∧ counterpart computeKey k old = None.
Proof.
  intros (okl & nkl & Ho & Hn & -> & _ & _)%Diff_Ret_inv.
  rewrite elem_of_filter_keyed. setoid_rewrite (extract_keys_elem _ _ _ Hn).
  simpl. setoid_rewrite (lookup_key_counterpart _ _ _ _ Ho). naive_solver.
Qed.

Lemma Diff_Deleted (computeKey : resource → res value) (old new : list resource)
    (dr : DiffResult.t) (r : resource) :
  Diff computeKey old new = Ret dr →
  r ∈ DiffResult.Deleted dr ↔
    r ∈ old ∧ ∃ k, computeKey r = Ret k ∧ counterpart computeKey k new = None.
Proof.
  intros (okl & nkl & Ho & Hn & _ & _ & ->)%Diff_Ret_inv.
  rewrite elem_of_filter_keyed. setoid_rewrite (extract_keys_elem _ _ _ Ho).
  simpl. setoid_rewrite (lookup_key_counterpart _ _ _ _ Hn). naive_solver.
Qed.

Lemma Diff_Modified (computeKey : resource → res value) (old new : list resource)
    (dr : DiffResult.t) (r : resource) :
  Diff computeKey old new = Ret dr →
  r ∈ DiffResult.Modified dr ↔
    r ∈ new ∧ ∃ k o, computeKey r = Ret k
                     ∧ counterpart computeKey k old = Some o ∧ o ≠ r.
Proof.
  intros (okl & nkl & Ho & Hn & _ & -> & _)%Diff_Ret_inv.
  rewrite elem_of_filter_keyed. setoid_rewrite (extract_keys_elem _ _ _ Hn).
  unfold differs_from. simpl.
  setoid_rewrite (lookup_key_counterpart _ _ _ _ Ho). split.
  - intros (k & [Hin Hk] & Hd).
    destruct (counterpart computeKey k old) as [o|] eqn:Hc; [|done].
    apply bool_decide_unpack in Hd. split; [done|]. by exists k, o.
  - intros (Hin & k & o & Hk & Hc & Hne). exists k. split; [done|].
    rewrite Hc. by apply bool_decide_pack.
Qed.

(** *** The partitions of the diff *)

Lemma extract_keys_Ret_total (computeKey : resource → res value)
    (l : list resource) (kl : list (value * resource)) (r : resource) :
  extract_keys computeKey l = Ret kl → r ∈ l → ∃ k, computeKey r = Ret k.
Proof.
  revert kl. induction l as [|x l IH]; intros kl; simpl.
  - intros _ Hin. by apply elem_of_nil in Hin.
  - unfold mbind, res_bind.
    destruct (computeKey x) as [kx| |] eqn:Hx; [|done..].
    destruct (extract_keys computeKey l) as [kl'| |]; [|done..].
    intros _ [->|Hin]%elem_of_cons; [by exists kx|by apply (IH kl')].
Qed.

Lemma Diff_Ret_total (computeKey : resource → res value) (old new : list resource)
    (dr : DiffResult.t) (r : resource) :
  Diff computeKey old new = Ret dr → r ∈ old ++ new → ∃ k, computeKey r = Ret k.
Proof.
  intros (okl & nkl & Ho & Hn & _)%Diff_Ret_inv [Hin|Hin]%elem_of_app.
  - by apply (extract_keys_Ret_total _ _ _ _ Ho).
  - by apply (extract_keys_Ret_total _ _ _ _ Hn).
Qed.

(** Every new record is added, modified or unchanged. *)
Lemma Diff_covers_new (computeKey : resource → res value) (old new : list resource)
    (dr : DiffResult.t) (r : resource) :
  Diff computeKey old new = Ret dr →
  r ∈ DiffResult.Added dr ++ DiffResult.Modified dr ++ Unchanged old new ↔ r ∈ new.
Proof.
  intros HD. rewrite !elem_of_app, (Diff_Added _ _ _ _ _ HD),
    (Diff_Modified _ _ _ _ _ HD). unfold Unchanged. rewrite list_elem_of_filter.
  split; [intros [[? _]|[[? _]|[_ ?]]]; done|].
  intros Hin. destruct (Diff_Ret_total _ _ _ _ r HD) as [k Hk].
  { apply elem_of_app. by right. }
  destruct (counterpart computeKey k old) as [o|] eqn:Hc.
  - right. destruct (decide (o = r)) as [->|Hne].
    + right. split; [|done]. by apply counterpart_Some in Hc as [? _].
    + left. split; [done|]. by exists k, o.
  - left. split; [done|]. by exists k.
Qed.

(** The keys of the deleted, modified and unchanged records are the keys
    of the old set. *)
Lemma Diff_covers_old_keys (computeKey : resource → res value)
    (old new : list resource) (dr : DiffResult.t) (k : value) :
  Diff computeKey old new = Ret dr →
  (∃ r, r ∈ DiffResult.Deleted dr ++ DiffResult.Modified dr ++ Unchanged old new
        ∧ computeKey r = Ret k)
  ↔ ∃ r, r ∈ old ∧ computeKey r = Ret k.
Proof.
  intros HD. split.
  - intros (r & Hin & Hk). rewrite !elem_of_app in Hin.
    destruct Hin as [Hin|[Hin|Hin]].
    + apply (Diff_Deleted _ _ _ _ _ HD) in Hin as [Hin _]. by exists r.
    + apply (Diff_Modified _ _ _ _ _ HD) in Hin as (_ & k' & o & Hk' & Hc & _).
      apply counterpart_Some in Hc as [Ho Hko]. exists o. split; [done|congruence].
    + apply list_elem_of_filter in Hin as [Hin _]. by exists r.
  - intros (r & Hin & Hk).
    destruct (counterpart computeKey k new) as [n|] eqn:Hc.
    + pose proof (counterpart_Some _ _ _ _ Hc) as [Hn Hkn].
      exists n. split; [|done].
      apply elem_of_app; right. apply (Diff_covers_new _ _ _ _ _ HD) in Hn.
      apply elem_of_app in Hn as [Hn|Hn]; [|done].
      apply (Diff_Added _ _ _ _ _ HD) in Hn as (_ & k' & Hk' & Hnone).
      rewrite counterpart_None in Hnone. destruct (Hnone r Hin). congruence.
    + exists r. split; [|done]. apply elem_of_app; left.
      apply (Diff_Deleted _ _ _ _ _ HD). split; [done|]. by exists k.
Qed.

(** No record is in two of the partitions Added, Deleted and Modified. *)
Lemma Diff_partitions_exclusive (computeKey : resource → res value)
    (old new : list resource) (dr : DiffResult.t) (r : resource) :
  Diff computeKey old new = Ret dr →
  ¬ (r ∈ DiffResult.Added dr ∧ r ∈ DiffResult.Deleted dr) ∧
  ¬ (r ∈ DiffResult.Added dr ∧ r ∈ DiffResult.Modified dr) ∧
  ¬ (r ∈ DiffResult.Deleted dr ∧ r ∈ DiffResult.Modified dr).
Proof.
  intros HD. rewrite (Diff_Added _ _ _ _ _ HD), (Diff_Deleted _ _ _ _ _ HD),
    (Diff_Modified _ _ _ _ _ HD). repeat split.
  - intros [(_ & k & Hk & Hnone) (Hin & _)].
    rewrite counterpart_None in Hnone. by destruct (Hnone r Hin).
  - intros [(_ & k & Hk & Hnone) (_ & k' & o & Hk' & Hsome & _)]. congruence.
  - intros [(_ & k & Hk & Hnone) (Hin & _)].
    rewrite counterpart_None in Hnone. by destruct (Hnone r Hin).
Qed.

(** With an extractor that is injective on the records of the two sets,
    every old record is deleted or unchanged and no record is modified. *)
Lemma Diff_covers_old_injective (computeKey : resource → res value)
    (old new : list resource) (dr : DiffResult.t) (r : resource) :
  (∀ r1 r2, r1 ∈ old ++ new → r2 ∈ old ++ new →
            computeKey r1 = computeKey r2 → r1 = r2) →
  Diff computeKey old new = Ret dr →
  r ∈ DiffResult.Deleted dr ++ DiffResult.Modified dr ++ Unchanged old new ↔ r ∈ old.
Proof.
  intros Hinj HD. rewrite !elem_of_app. split.
  - intros [Hin|[Hin|Hin]].
    + by apply (Diff_Deleted _ _ _ _ _ HD) in Hin as [Hin _].
    + apply (Diff_Modified _ _ _ _ _ HD) in Hin as (Hin & k & o & Hk & Hc & Hne).
      apply counterpart_Some in Hc as [Ho Hko]. destruct Hne.
      apply Hinj; [apply elem_of_app; by left|apply elem_of_app; by right|congruence].
    + by apply list_elem_of_filter in Hin as [Hin _].
  - intros Hin. destruct (Diff_Ret_total _ _ _ _ r HD) as [k Hk].
    { apply elem_of_app. by left. }
    destruct (counterpart computeKey k new) as [n|] eqn:Hc.
    + apply counterpart_Some in Hc as [Hn Hkn]. right; right.
      assert (n = r) as ->.
      { apply Hinj; [apply elem_of_app; by right|apply elem_of_app; by left|congruence]. }
      by apply list_elem_of_filter.
    + left. apply (Diff_Deleted _ _ _ _ _ HD). split; [done|]. by exists k.
Qed.

(** C2: for disjoint sets and an extractor that is total and injective on
    their records, Added, Modified and the unchanged records make up the
    new set, Deleted, Modified and the unchanged records make up the old
    set, and no record is in two of Added, Deleted and Modified. *)
Theorem Diff_partitions (computeKey : resource → res value)
    (old new : list resource) :
  (∀ r, r ∈ old → r ∉ new) →
  (∀ r, r ∈ old ++ new → ∃ k, computeKey r = Ret k) →
  (∀ r1 r2, r1 ∈ old ++ new → r2 ∈ old ++ new →
            computeKey r1 = computeKey r2 → r1 = r2) →
  ∃ dr, Diff computeKey old new = Ret dr ∧
    (∀ r, r ∈ DiffResult.Added dr ++ DiffResult.Modified dr ++ Unchanged old new
          ↔ r ∈ new) ∧
    (∀ r, r ∈ DiffResult.Deleted dr ++ DiffResult.Modified dr ++ Unchanged old new
          ↔ r ∈ old) ∧
    (∀ r, ¬ (r ∈ DiffResult.Added dr ∧ r ∈ DiffResult.Deleted dr) ∧
          ¬ (r ∈ DiffResult.Added dr ∧ r ∈ DiffResult.Modified dr) ∧
          ¬ (r ∈ DiffResult.Deleted dr ∧ r ∈ DiffResult.Modified dr)).
Proof.
  intros _ Htot Hinj. destruct (Diff_total _ _ _ Htot) as [dr HD].
  exists dr. split; [done|]. split; [|split].
  - intros r. by apply (Diff_covers_new computeKey).
  - intros r. by apply (Diff_covers_old_injective computeKey).
  - intros r. by apply (Diff_partitions_exclusive computeKey old new).
Qed.

(** *** The loops *)

Lemma for_range_sequential {A : Type} (R : res unit → list event → Prop)
    (l : list A) (body : A → M unit) :
  sequential R →
  (∀ x s r s' t, x ∈ l → body x s = (r, s', t) → R r t) →
  ∀ s r s' t, for_range l body s = (r, s', t) → R r t.
Proof.
  intros [Hnil Happ]. induction l as [|x l IH]; intros Hbody s r s' t; simpl.
  - unfold mret, M_ret. by intros [= <- <- <-].
  - intros Hrun. apply bind_run in Hrun
      as [([] & s1 & t1 & t2 & Hx & Hl & ->)|[(e & Hx & ->)|[Hx ->]]].
    + apply Happ.
      * eapply Hbody; [apply list_elem_of_here|done].
      * eapply IH; [|done]. intros y ? ? ? ? Hy. apply Hbody. by apply list_elem_of_further.
    + eapply Hbody; [apply list_elem_of_here|done].
    + eapply Hbody; [apply list_elem_of_here|done].
Qed.

Lemma seq_sequential (R : res unit → list event → Prop) (m1 m2 : M unit) :
  sequential R →
  (∀ s r s' t, m1 s = (r, s', t) → R r t) →
  (∀ s r s' t, m2 s = (r, s', t) → R r t) →
  ∀ s r s' t, (m1 ;; m2) s = (r, s', t) → R r t.
Proof.
  intros [Hnil Happ] H1 H2 s r s' t Hrun.
  apply bind_run in Hrun
    as [([] & s1 & t1 & t2 & Hx & Hl & ->)|[(e & Hx & ->)|[Hx ->]]]; eauto.
Qed.

Lemma for_range_Ret {A : Type} (l : list A) (body : A → M unit)
    (s s' : St) (t : list event) :
  for_range l body s = (Ret tt, s', t) →
  ∃ steps : list (list event),
    t = concat steps ∧
    Forall2 (λ x tx, ∃ s1 s2, body x s1 = (Ret tt, s2, tx)) l steps.
Proof.
  revert s t. induction l as [|x l IH]; intros s t; simpl.
  - unfold mret, M_ret. intros [= <- <-]. exists []. by split; [|constructor].
  - intros Hrun. apply bind_run in Hrun
      as [([] & s1 & t1 & t2 & Hx & Hl & ->)|[(e & _ & [=])|[_ [=]]]].
    apply IH in Hl as (steps & -> & Hsteps).
    exists (t1 :: steps). split; [done|]. constructor; [|done]. by exists s, s1.
Qed.

(** *** One iteration of each loop *)

Lemma call_bind_run (c : api_call) (k : option error → M unit) (s s' : St)
    (r : res unit) (t : list event) :
  (∀ err s0, k err s0 = (after_call err, s0, []) ∨ k err s0 = (after_delete err, s0, [])) →
  (call c ≫= k) s = (r, s', t) →
  ∃ err, conn s c = (err, s') ∧ t = [(c, err)] ∧ k err s' = (r, s', []).
Proof.
  intros Hk. unfold mbind, M_bind, call.
  destruct (conn s c) as [err s1] eqn:Hc.
  destruct (k err s1) as [[r' s2] t'] eqn:Hk'.
  intros [= <- <- <-]. exists err.
  destruct (Hk err s1) as [H|H]; rewrite H in Hk'; injection Hk' as <- <- <-; done.
Qed.

Lemma return_error_eq (err : option error) (s : St) :
  return_error err s = (after_call err, s, []).
Proof. by destruct err. Qed.

Lemma deleteKafka_run (i : DeleteKafkaInput.t) (s s' : St) (r : res unit)
    (t : list event) :
  deleteKafka i s = (r, s', t) →
  ∃ err, conn s (CallDeleteKafka i) = (err, s')
         ∧ t = [(CallDeleteKafka i, err)] ∧ r = after_delete err.
Proof.
  unfold deleteKafka. intros Hrun.
  apply call_bind_run in Hrun as (err & Hc & -> & Hk).
  - exists err. split; [done|]. split; [done|].
    destruct err as [[sc errs| |]|]; simpl in *; try by injection Hk as <-.
    destruct (decide (sc ≠ 404)); by injection Hk as <-.
  - intros err s0. right.
    destruct err as [[sc errs| |]|]; simpl; try done.
    by destruct (decide (sc ≠ 404)).
Qed.

Lemma createKafka_run (i : CreateKafkaInput.t) (s s' : St) (r : res unit)
    (t : list event) :
  createKafka i s = (r, s', t) →
  ∃ err, conn s (CallCreateKafka i) = (err, s')
         ∧ t = [(CallCreateKafka i, err)] ∧ r = after_call err.
Proof.
  unfold createKafka. intros Hrun.
  apply call_bind_run in Hrun as (err & Hc & -> & Hk).
  - exists err. rewrite return_error_eq in Hk. by injection Hk as <-.
  - intros err s0. left. apply return_error_eq.
Qed.

Lemma updateKafka_run (i : UpdateKafkaInput.t) (s s' : St) (r : res unit)
    (t : list event) :
  updateKafka i s = (r, s', t) →
  ∃ err, conn s (CallUpdateKafka i) = (err, s')
         ∧ t = [(CallUpdateKafka i, err)] ∧ r = after_call err.
Proof.
  unfold updateKafka. intros Hrun.
  apply call_bind_run in Hrun as (err & Hc & -> & Hk).
  - exists err. rewrite return_error_eq in Hk. by injection Hk as <-.
  - intros err s0. left. apply return_error_eq.
Qed.

Lemma delete_removed_run (serviceID : string) (latestVersion : Z)
    (x : resource) (s s' : St) (r : res unit) (t : list event) :
  delete_removed serviceID latestVersion x s = (r, s', t) →
  (t = [] ∧ s' = s ∧ r = Panic)
  ∨ ∃ m name err,
      x = RMap m ∧ m !! "name" = Some (VString name) ∧
      conn s (CallDeleteKafka (DeleteKafkaInput.Build serviceID latestVersion name))
        = (err, s') ∧
      t = [(CallDeleteKafka (DeleteKafkaInput.Build serviceID latestVersion name), err)]
      ∧ r = after_delete err.
Proof.
  unfold delete_removed. rewrite lift_bind.
  destruct x as [m|v]; simpl; [|intros [= <- <- <-]; by left].
  rewrite lift_bind. unfold buildDelete, index. simpl.
  destruct (m !! "name") as [[|name| | |]|] eqn:Hname; simpl;
    try (intros [= <- <- <-]; by left).
  intros Hrun. apply deleteKafka_run in Hrun as (err & Hc & -> & ->).
  right. by exists m, name, err.
Qed.

Lemma create_new_run (serviceID : string) (latestVersion : Z)
    (x : resource) (s s' : St) (r : res unit) (t : list event) :
  create_new serviceID latestVersion x s = (r, s', t) →
  (t = [] ∧ s' = s ∧
     (r = Ret tt → ∃ m, x = RMap m ∧
        (m !! "name" = None ∨ m !! "name" = Some (VString ""))))
  ∨ ∃ m opts err,
      x = RMap m ∧ buildCreate (RMap m) serviceID latestVersion = Ret opts ∧
      m !! "name" = Some (VString (CreateKafkaInput.Name opts)) ∧
      CreateKafkaInput.Name opts ≠ "" ∧
      CreateKafkaInput.ServiceID opts = serviceID ∧
      CreateKafkaInput.ServiceVersion opts = latestVersion ∧
      conn s (CallCreateKafka opts) = (err, s') ∧
      t = [(CallCreateKafka opts, err)] ∧ r = after_call err.
Proof.
  unfold create_new. rewrite lift_bind.
  destruct x as [m|v]; simpl; [|intros [= <- <- <-]; by left].
  destruct (m !! "name") as [v|] eqn:Hname.
  2:{ unfold mret, M_ret. intros [= <- <- <-]. left. repeat split; eauto. }
  rewrite lift_bind.
  destruct v as [|name| | |]; simpl; try (intros [= <- <- <-]; by left).
  destruct (decide (name = "")) as [->|Hne].
  { unfold mret, M_ret. intros [= <- <- <-]. left. repeat split; eauto. }
  rewrite lift_bind.
  destruct (buildCreate (RMap m) serviceID latestVersion) as [opts|e|] eqn:Hb;
    try (intros [= <- <- <-]; by left).
  intros Hrun. apply createKafka_run in Hrun as (err & Hc & -> & ->).
  right. exists m, opts, err.
  assert (CreateKafkaInput.Name opts = name
          ∧ CreateKafkaInput.ServiceID opts = serviceID
          ∧ CreateKafkaInput.ServiceVersion opts = latestVersion) as (Hn & Hs & Hv).
  { revert Hb. unfold buildCreate, index. simpl. rewrite Hname. simpl.
    unfold mbind, res_bind.
    repeat (match goal with
            | |- context [match ?x with _ => _ end] => destruct x; try done
            end).
    by intros [= <-]. }
  rewrite Hn. done.
Qed.

Lemma update_modified_run (serviceID : string) (latestVersion : Z)
    (oldSet : list resource) (x : resource) (s s' : St) (r : res unit)
    (t : list event) :
  update_modified serviceID latestVersion oldSet x s = (r, s', t) →
  (t = [] ∧ s' = s ∧ r ≠ Ret tt)
  ∨ ∃ m opts err,
      x = RMap m ∧
      buildUpdate m (Filter nameKey m oldSet) serviceID latestVersion = Ret opts ∧
      conn s (CallUpdateKafka opts) = (err, s') ∧
      t = [(CallUpdateKafka opts, err)] ∧ r = after_call err.
Proof.
  unfold update_modified. rewrite lift_bind.
  destruct x as [m|v]; simpl; [|intros [= <- <- <-]; by left].
  rewrite lift_bind.
  destruct (buildUpdate m _ serviceID latestVersion) as [opts|e|] eqn:Hb.
  - intros Hrun. apply updateKafka_run in Hrun as (err & Hc & -> & ->).
    right. by exists m, opts, err.
  - intros [= <- <- <-]. by left.
  - intros [= <- <- <-]. by left.
Qed.

Lemma extract_keys_fails (computeKey : resource → res value) (l : list resource)
    (r : resource) (e : error) :
  (∀ x, x ∈ l → computeKey x ≠ Panic) →
  r ∈ l → computeKey r = Raise e →
  ∃ r' e', r' ∈ l ∧ computeKey r' = Raise e'
           ∧ extract_keys computeKey l = Raise e'.
Proof.
  induction l as [|x l IH]; intros Hnp Hin Hr; [by apply elem_of_nil in Hin|].
  simpl. unfold mbind, res_bind.
  destruct (computeKey x) as [k|e'|] eqn:Hx.
  - apply elem_of_cons in Hin as [->|Hin]; [congruence|].
    destruct IH as (r' & e' & Hr' & Hk' & ->); [|done..|].
    { intros y Hy. apply Hnp. by apply list_elem_of_further. }
    exists r', e'. split; [by apply list_elem_of_further|done].
  - exists x, e'. split; [apply list_elem_of_here|done].
  - destruct (Hnp x); [apply list_elem_of_here|done].
Qed.

(** A failed key extraction aborts the diff with the error of an
    extraction, for every extractor that does not panic. *)
Lemma Diff_fails (computeKey : resource → res value) (old new : list resource)
    (r : resource) (e : error) :
  (∀ x, x ∈ old ++ new → computeKey x ≠ Panic) →
  r ∈ old ++ new → computeKey r = Raise e →
  ∃ r' e', r' ∈ old ++ new ∧ computeKey r' = Raise e'
           ∧ Diff computeKey old new = Raise e'.
Proof.
  intros Hnp Hin Hr. unfold Diff, mbind, res_bind.
  destruct (extract_keys computeKey old) as [okl|e0|] eqn:Ho.
  - apply elem_of_app in Hin as [Hin|Hin].
    { pose proof (extract_keys_elem _ _ _ Ho) as Hel.
      destruct (extract_keys_total computeKey [r]) as [kl Hkl].
      - intros x ->%list_elem_of_singleton.
        destruct (extract_keys_fails computeKey old r e) as (r' & e' & _ & _ & Hf);
          [|done..|congruence].
        intros y Hy. apply Hnp, elem_of_app. by left.
      - simpl in Hkl. unfold mbind, res_bind in Hkl. by rewrite Hr in Hkl. }
    destruct (extract_keys_fails computeKey new r e) as (r' & e' & Hr' & Hk' & ->);
      [|done..|].
    { intros y Hy. apply Hnp, elem_of_app. by right. }
    exists r', e'. split; [apply elem_of_app; by right|done].
  - assert (∃ r', r' ∈ old ∧ computeKey r' = Raise e0) as (r' & Hr' & Hk').
    { clear Hin Hnp. revert Ho. induction old as [|x old IH]; simpl; [done|].
      unfold mbind, res_bind. destruct (computeKey x) as [k|e1|] eqn:Hx; [|intros [= ->]|done].
      - destruct (extract_keys computeKey old) as [kl|e1|]; [done| |done].
        intros [= ->]. destruct IH as (r' & Hr' & Hk'); [done|].
        exists r'. split; [by apply list_elem_of_further|done].
      - exists x. split; [apply list_elem_of_here|done]. }
    exists r', e0. split; [apply elem_of_app; by left|done].
  - exfalso. clear Hin. revert Ho.
    assert (∀ x, x ∈ old → computeKey x ≠ Panic) as Hnp'.
    { intros x Hx. apply Hnp, elem_of_app. by left. }
    clear Hnp. induction old as [|x old IH]; simpl; [done|].
    unfold mbind, res_bind. destruct (computeKey x) as [k|e1|] eqn:Hx; [|done|].
    + destruct (extract_keys computeKey old) as [kl|e1|]; [done|done|].
      intros _. apply IH; [|done]. intros y Hy. apply Hnp'. by apply list_elem_of_further.
    + destruct (Hnp' x); [apply list_elem_of_here|done].
Qed.

Lemma nameKey_Raise (r : resource) (e : error) :
  nameKey r = Raise e ↔ (∀ m, r ≠ RMap m) ∧ e = Errorf_type_asserted r.
Proof. destruct r as [m|v]; simpl; split; naive_solver. Qed.

Lemma nameKey_no_panic (r : resource) : nameKey r ≠ Panic.
Proof. by destruct r. Qed.

Lemma nameKey_Ret_map (r : resource) (k : value) :
  nameKey r = Ret k → ∃ m, r = RMap m ∧ k = index m "name".
Proof. destruct r as [m|v]; simpl; [|done]. intros [= <-]. by exists m. Qed.

(** *** Process *)

Lemma Process_run (serviceID : string) (oldLogCfg newLogCfg : option (list resource))
    (latestVersion : Z) (s : St) :
  Process serviceID oldLogCfg newLogCfg latestVersion s =
    match Diff nameKey (default [] oldLogCfg) (default [] newLogCfg) with
    | Ret diffResult =>
        reconcile serviceID latestVersion (default [] oldLogCfg) diffResult s
    | Raise e => (Raise e, s, [])
    | Panic => (Panic, s, [])
    end.
Proof. unfold Process. by rewrite lift_bind. Qed.

(** C5: a record that is not a map makes the key extractor fail; the diff
    then returns the error of a failed extraction, and [Process] returns
    that error without having issued any call. *)
Theorem Process_aborts_on_failed_key (serviceID : string)
    (oldLogCfg newLogCfg : option (list resource)) (latestVersion : Z)
    (r : resource) (s : St) :
  r ∈ default [] oldLogCfg ++ default [] newLogCfg →
  (∀ m, r ≠ RMap m) →
  ∃ r',
    r' ∈ default [] oldLogCfg ++ default [] newLogCfg ∧
    nameKey r' = Raise (Errorf_type_asserted r') ∧
    Diff nameKey (default [] oldLogCfg) (default [] newLogCfg)
      = Raise (Errorf_type_asserted r') ∧
    Process serviceID oldLogCfg newLogCfg latestVersion s
      = (Raise (Errorf_type_asserted r'), s, []).
Proof.
  intros Hin Hnm.
  destruct (Diff_fails nameKey (default [] oldLogCfg) (default [] newLogCfg)
              r (Errorf_type_asserted r)) as (r' & e' & Hr' & Hk' & HD).
  - intros x _. apply nameKey_no_panic.
  - done.
  - by apply nameKey_Raise.
  - pose proof Hk' as [_ ->]%nameKey_Raise.
    exists r'. repeat split; [done..|]. by rewrite Process_run, HD.
Qed.

Lemma Forall_sequential (Q : event → Prop) :
  sequential (λ _ t, Forall Q t).
Proof. split; [constructor|]. intros t1 r t2 H1 H2. by apply Forall_app. Qed.

Lemma reconcile_sequential (R : res unit → list event → Prop)
    (serviceID : string) (latestVersion : Z) (oldSet : list resource)
    (dr : DiffResult.t) :
  sequential R →
  (∀ x s r s' t, x ∈ DiffResult.Deleted dr →
     delete_removed serviceID latestVersion x s = (r, s', t) → R r t) →
  (∀ x s r s' t, x ∈ DiffResult.Added dr →
     create_new serviceID latestVersion x s = (r, s', t) → R r t) →
  (∀ x s r s' t, x ∈ DiffResult.Modified dr →
     update_modified serviceID latestVersion oldSet x s = (r, s', t) → R r t) →
  ∀ s r s' t, reconcile serviceID latestVersion oldSet dr s = (r, s', t) → R r t.
Proof.
  intros HR Hd Hc Hu. unfold reconcile.
  apply seq_sequential; [done|by apply for_range_sequential|].
  apply seq_sequential; [done|by apply for_range_sequential..].
Qed.

Lemma stops_at_first_failure_sequential : sequential stops_at_first_failure.
Proof.
  split; [left; constructor|].
  intros t1 r t2 [H1|(t' & c' & e' & _ & _ & [=])] [H2|(t0 & c & e & -> & H0 & ->)].
  - left. by apply Forall_app.
  - right. exists (t1 ++ t0), c, e. rewrite app_assoc. split; [done|].
    split; [by apply Forall_app|done].
Qed.

Lemma after_call_stops (c : api_call) (err : option error) :
  stops_at_first_failure (after_call err) [(c, err)].
Proof.
  destruct err as [e|]; simpl.
  - right. by exists [], c, e.
  - left. by repeat constructor.
Qed.

Lemma after_delete_stops (i : DeleteKafkaInput.t) (err : option error) :
  stops_at_first_failure (after_delete err) [(CallDeleteKafka i, err)].
Proof.
  destruct err as [e|]; simpl; [|left; by repeat constructor].
  destruct e as [sc errs|x|msg]; [|right; by eexists [], _, _..].
  destruct (decide (sc ≠ 404)) as [Hne|Heq]; [right; by eexists [], _, _|].
  apply dec_stable in Heq as ->. left. repeat constructor.
  unfold benign, not_found_on_delete. simpl. eauto.
Qed.

Lemma Process_stops_at_first_failure (serviceID : string)
    (oldLogCfg newLogCfg : option (list resource)) (latestVersion : Z)
    (s s' : St) (r : res unit) (t : list event) :
  Process serviceID oldLogCfg newLogCfg latestVersion s = (r, s', t) →
  stops_at_first_failure r t.
Proof.
  rewrite Process_run.
  destruct (Diff nameKey _ _) as [dr|e|]; [|intros [= <- <- <-]; left; constructor..].
  apply reconcile_sequential; [apply stops_at_first_failure_sequential|..].
  - intros x s0 r0 s0' t0 _ [(-> & _)|(m & name & err & _ & _ & _ & -> & ->)]%delete_removed_run.
    + left; constructor.
    + apply after_delete_stops.
  - intros x s0 r0 s0' t0 _ [(-> & _)|(m & opts & err & _ & _ & _ & _ & _ & _ & _ & -> & ->)]%create_new_run.
    + left; constructor.
    + apply after_call_stops.
  - intros x s0 r0 s0' t0 _ [(-> & _)|(m & opts & err & _ & _ & _ & -> & ->)]%update_modified_run.
    + left; constructor.
    + apply after_call_stops.
Qed.

(** C4: a call answered with an error, other than a delete answered with a
    404, is the last call of the pass, and [Process] returns that very
    error. *)
Theorem Process_error_propagates (serviceID : string)
    (oldLogCfg newLogCfg : option (list resource)) (latestVersion : Z)
    (s s' : St) (r : res unit) (t : list event)
    (i : nat) (c : api_call) (e : error) :
  Process serviceID oldLogCfg newLogCfg latestVersion s = (r, s', t) →
  t !! i = Some (c, Some e) →
  ¬ not_found_on_delete c e →
  r = Raise e ∧ length t = S i.
Proof.
  intros Hrun Hi Hnf.
  apply Process_stops_at_first_failure in Hrun as [Hb|(t0 & c' & e' & -> & Hb & ->)].
  - rewrite Forall_forall in Hb.
    destruct (Hnf (Hb _ (list_elem_of_lookup_2 _ _ _ Hi))).
  - destruct (decide (i < length t0)%nat) as [Hlt|Hge].
    + rewrite lookup_app_l in Hi by done. rewrite Forall_forall in Hb.
      destruct (Hnf (Hb _ (list_elem_of_lookup_2 _ _ _ Hi))).
    + rewrite lookup_app_r in Hi by lia.
      destruct (i - length t0)%nat as [|n] eqn:Hn; simpl in Hi; [|done].
      injection Hi as <- <-. split; [done|]. rewrite length_app. simpl. lia.
Qed.

(** *** The requests *)

Lemma changed_string_Ret (o : option value) (x : option string) :
  changed_string o = Ret x → VString <$> x = as_sent <$> o.
Proof. destruct o as [[]|]; simpl; (try done); by intros [= <-]. Qed.

Lemma changed_bool_Ret (o : option value) (x : option bool) :
  changed_bool o = Ret x → VBool <$> x = as_sent <$> o.
Proof. destruct o as [[]|]; simpl; (try done); by intros [= <-]. Qed.

Lemma changed_uint_Ret (o : option value) (x : option Z) :
  changed_uint o = Ret x → VUint <$> x = as_sent <$> o.
Proof. destruct o as [[]|]; simpl; (try done); by intros [= <-]. Qed.

Lemma res_bind_Ret {A B : Type} (x : res A) (f : A → res B) (b : B) :
  x ≫= f = Ret b → ∃ a, x = Ret a ∧ f a = Ret b.
Proof. destruct x as [a| |]; simpl; [|done..]. intros H. by exists a. Qed.

Lemma buildUpdate_Ret (resource modified : gmap string value)
    (serviceID : string) (latestVersion : Z) (opts : UpdateKafkaInput.t) :
  buildUpdate resource modified serviceID latestVersion = Ret opts →
  UpdateKafkaInput.ServiceID opts = serviceID ∧
  UpdateKafkaInput.ServiceVersion opts = latestVersion ∧
  resource !! "name" = Some (VString (UpdateKafkaInput.Name opts)) ∧
  ∀ f x, (f, x) ∈ pointer_fields opts → x = as_sent <$> modified !! f.
Proof.
  unfold buildUpdate. intros H.
  repeat (apply res_bind_Ret in H as (? & ? & H)).
  injection H as <-. simpl.
  split; [done|]. split; [done|]. split.
  { unfold index in *. by destruct (resource !! "name") as [[]|]; simplify_eq/=. }
  intros f y Hin. unfold pointer_fields in Hin. simpl in Hin.
  repeat (apply elem_of_cons in Hin as [[= -> ->]|Hin];
    [first [by apply changed_string_Ret|by apply changed_bool_Ret
           |by apply changed_uint_Ret]|]).
  by apply elem_of_nil in Hin.
Qed.

Lemma Filter_lookup (m : gmap string value) (oldSet : list resource)
    (o : gmap string value) (f : string) :
  counterpart nameKey (index m "name") oldSet = Some (RMap o) →
  Filter nameKey m oldSet !! f =
    match m !! f with
    | Some v => if decide (o !! f ≠ Some v) then Some v else None
    | None => None
    end.
Proof.
  intros Hc. unfold Filter. simpl. rewrite Hc.
  rewrite map_lookup_filter. destruct (m !! f) as [v|]; simpl; [|done].
  by case_guard; simpl in *; (destruct (decide (o !! f ≠ Some v))).
Qed.

Lemma Modified_counterpart (old new : list resource) (dr : DiffResult.t)
    (m : gmap string value) :
  Diff nameKey old new = Ret dr →
  RMap m ∈ DiffResult.Modified dr →
  RMap m ∈ new ∧
  ∃ o, counterpart nameKey (index m "name") old = Some (RMap o) ∧
       RMap o ∈ old ∧ index o "name" = index m "name" ∧ o ≠ m.
Proof.
  intros HD Hm. apply (Diff_Modified _ _ _ _ _ HD) in Hm
    as (Hin & k & x & Hk & Hc & Hne).
  injection Hk as <-. split; [done|].
  pose proof (counterpart_Some _ _ _ _ Hc) as [Hx Hkx].
  apply nameKey_Ret_map in Hkx as (o & -> & Ho).
  exists o. repeat split; [done..|congruence].
Qed.

(** C6: the update request for a modified record carries the service ID,
    the version and the name, and each of its other fields is set exactly
    when [Filter] selects the attribute, that is when the record has the
    attribute with a value other than the one of the old record of the same
    name; every other field stays nil. *)
Theorem update_sets_only_changed_fields (serviceID : string) (latestVersion : Z)
    (old new : list resource) (dr : DiffResult.t) (m : gmap string value)
    (s s' : St) (r : res unit) (t : list event)
    (opts : UpdateKafkaInput.t) (err : option error) :
  Diff nameKey old new = Ret dr →
  RMap m ∈ DiffResult.Modified dr →
  update_modified serviceID latestVersion old (RMap m) s = (r, s', t) →
  (CallUpdateKafka opts, err) ∈ t →
  UpdateKafkaInput.ServiceID opts = serviceID ∧
  UpdateKafkaInput.ServiceVersion opts = latestVersion ∧
  m !! "name" = Some (VString (UpdateKafkaInput.Name opts)) ∧
  ∃ o, RMap o ∈ old ∧ index o "name" = index m "name" ∧ o ≠ m ∧
    ∀ f x, (f, x) ∈ pointer_fields opts →
      x = as_sent <$> Filter nameKey m old !! f ∧
      (is_Some x ↔ is_Some (m !! f) ∧ o !! f ≠ m !! f).
Proof.
  intros HD Hm Hrun Hev.
  apply update_modified_run in Hrun
    as [(-> & _)|(m' & opts' & err' & [= <-] & Hb & _ & -> & _)];
    [by apply elem_of_nil in Hev|].
  apply list_elem_of_singleton in Hev as [= -> ->].
  apply buildUpdate_Ret in Hb as (Hs & Hv & Hn & Hf).
  repeat (split; [done|]).
  destruct (Modified_counterpart _ _ _ _ HD Hm) as (_ & o & Hc & Ho & Hk & Hne).
  exists o. repeat (split; [done|]).
  intros f x Hin. specialize (Hf f x Hin). split; [done|].
  rewrite Hf, (Filter_lookup _ _ _ _ Hc), fmap_is_Some.
  destruct (m !! f) as [v|] eqn:Hmf.
  - destruct (decide (o !! f ≠ Some v)) as [Hd|Hd].
    + split; [done|]. intros _. eauto.
    + split; [by intros [? [=]]|]. by intros [_ ?].
  - split; [by intros [? [=]]|]. by intros [[? [=]] _].
Qed.

Lemma nameKey_named (m : gmap string value) (name : string) :
  m !! "name" = Some (VString name) → nameKey (RMap m) = Ret (VString name).
Proof. intros H. simpl. unfold index. by rewrite H. Qed.

(** C7: the key extractor returns the [name] entry of a record, and every
    call of a pass carries the service ID and the version of the pass and,
    as the name of its endpoint, the key of a record of the partition it
    handles. *)
Theorem Process_calls_are_name_keyed (serviceID : string)
    (oldLogCfg newLogCfg : option (list resource)) (latestVersion : Z)
    (s s' : St) (r : res unit) (t : list event) :
  Process serviceID oldLogCfg newLogCfg latestVersion s = (r, s', t) →
  (∀ m, nameKey (RMap m) = Ret (index m "name")) ∧
  ∀ c err, (c, err) ∈ t →
    ∃ dr, Diff nameKey (default [] oldLogCfg) (default [] newLogCfg) = Ret dr ∧
          names_record_of serviceID latestVersion dr c.
Proof.
  intros Hrun. split; [done|].
  revert Hrun. rewrite Process_run.
  destruct (Diff nameKey _ _) as [dr|e|] eqn:HD;
    [|intros [= <- <- <-] c err []%elem_of_nil..].
  intros Hrun c err Hin. exists dr. split; [done|].
  assert (Forall (λ ev, names_record_of serviceID latestVersion dr ev.1) t) as Ht.
  { revert Hrun.
    apply (reconcile_sequential (λ _ t, Forall _ t)); [apply Forall_sequential|..].
    - intros x s0 r0 s0' t0 Hx
        [(-> & _)|(m & name & err' & -> & Hn & _ & -> & _)]%delete_removed_run;
        constructor; [|constructor].
      repeat split. exists m. split; [done|]. by apply nameKey_named.
    - intros x s0 r0 s0' t0 Hx
        [(-> & _)|(m & opts & err' & -> & _ & Hn & _ & Hs & Hv & _ & -> & _)]%create_new_run;
        constructor; [|constructor].
      repeat split; [done..|]. exists m. split; [done|]. by apply nameKey_named.
    - intros x s0 r0 s0' t0 Hx
        [(-> & _)|(m & opts & err' & -> & Hb & _ & -> & _)]%update_modified_run;
        constructor; [|constructor].
      apply buildUpdate_Ret in Hb as (Hs & Hv & Hn & _).
      repeat split; [done..|]. exists m. split; [done|]. by apply nameKey_named. }
  rewrite Forall_forall in Ht. apply (Ht _ Hin).
Qed.

Lemma Forall2_concat_singletons {A B : Type} (P : A → B → Prop)
    (l : list A) (steps : list (list B)) :
  Forall2 (λ x tx, ∃ y, tx = [y] ∧ P x y) l steps →
  Forall2 P l (concat steps).
Proof.
  induction 1 as [|x tx l steps (y & -> & HP) _ IH]; simpl; by constructor.
Qed.

Lemma delete_loop_run (serviceID : string) (latestVersion : Z)
    (l : list resource) (s s' : St) (r : res unit) (t : list event) :
  for_range l (delete_removed serviceID latestVersion) s = (r, s', t) →
  Forall (λ ev, is_delete ev.1 = true) t ∧
  (r = Ret tt →
   Forall2 (λ x ev, ∃ m name,
              x = RMap m ∧ m !! "name" = Some (VString name) ∧
              ev.1 = CallDeleteKafka
                       (DeleteKafkaInput.Build serviceID latestVersion name) ∧
              benign ev) l t).
Proof.
  intros Hrun. split.
  - revert s r s' t Hrun.
    apply (for_range_sequential (λ _ t, Forall _ t)); [apply Forall_sequential|].
    intros x s0 r0 s0' t0 _
      [(-> & _)|(m & name & err & _ & _ & _ & -> & _)]%delete_removed_run;
      by repeat constructor.
  - intros ->. apply for_range_Ret in Hrun as (steps & -> & Hsteps).
    apply Forall2_concat_singletons.
    eapply Forall2_impl; [exact Hsteps|]. simpl.
    intros x tx (s1 & s2 & [(_ & _ & [=])|(m & name & err & -> & Hn & _ & -> & Hr)]%delete_removed_run).
    eexists. split; [done|]. exists m, name. repeat split; [done|].
    pose proof (after_delete_stops (DeleteKafkaInput.Build serviceID latestVersion name) err)
      as [Hb|(t0 & c & e & _ & _ & He)].
    + by apply Forall_inv in Hb.
    + congruence.
Qed.

(** C10: the calls of a pass are its deletes, then its creates, then its
    updates; and once a create or an update is issued, a delete has been
    issued, and answered without error or with a 404, for every record of
    the Deleted partition. *)
Theorem Process_deletes_creates_updates (serviceID : string)
    (oldLogCfg newLogCfg : option (list resource)) (latestVersion : Z)
    (s s' : St) (r : res unit) (t : list event) :
  Process serviceID oldLogCfg newLogCfg latestVersion s = (r, s', t) →
  ∃ ds cs us,
    t = ds ++ cs ++ us ∧
    Forall (λ ev, is_delete ev.1 = true) ds ∧
    Forall (λ ev, is_create ev.1 = true) cs ∧
    Forall (λ ev, is_update ev.1 = true) us ∧
    (cs ++ us ≠ [] →
     ∃ dr, Diff nameKey (default [] oldLogCfg) (default [] newLogCfg) = Ret dr ∧
       Forall2 (λ x ev, ∃ m name,
                  x = RMap m ∧ m !! "name" = Some (VString name) ∧
                  ev.1 = CallDeleteKafka
                           (DeleteKafkaInput.Build serviceID latestVersion name) ∧
                  benign ev) (DiffResult.Deleted dr) ds).
Proof.
  rewrite Process_run.
  destruct (Diff nameKey _ _) as [dr|e|] eqn:HD;
    [|intros [= <- <- <-]; exists [], [], []; by repeat split..].
  unfold reconcile. intros Hrun.
  assert (∀ l s0 r0 s0' t0,
    for_range l (create_new serviceID latestVersion) s0 = (r0, s0', t0) →
    Forall (λ ev, is_create ev.1 = true) t0) as Hcreate.
  { intros l. apply (for_range_sequential (λ _ t, Forall _ t)); [apply Forall_sequential|].
    intros x s0 r0 s0' t0 _
      [(-> & _)|(m & opts & err & _ & _ & _ & _ & _ & _ & _ & -> & _)]%create_new_run;
      by repeat constructor. }
  assert (∀ l s0 r0 s0' t0,
    for_range l (update_modified serviceID latestVersion (default [] oldLogCfg)) s0
      = (r0, s0', t0) →
    Forall (λ ev, is_update ev.1 = true) t0) as Hupdate.
  { intros l. apply (for_range_sequential (λ _ t, Forall _ t)); [apply Forall_sequential|].
    intros x s0 r0 s0' t0 _
      [(-> & _)|(m & opts & err & _ & _ & _ & -> & _)]%update_modified_run;
      by repeat constructor. }
  apply bind_run in Hrun
    as [([] & s1 & t1 & t' & Hd & Hrest & ->)|[(e & Hd & ->)|[Hd ->]]].
  - pose proof (delete_loop_run _ _ _ _ _ _ _ Hd) as [Hds Hall].
    assert (∃ cs us, t' = cs ++ us ∧ Forall (λ ev, is_create ev.1 = true) cs
                     ∧ Forall (λ ev, is_update ev.1 = true) us) as (cs & us & -> & Hcs & Hus).
    { apply bind_run in Hrest
        as [([] & s2 & t2 & t3 & Hc & Hu & ->)|[(e & Hc & ->)|[Hc ->]]].
      - exists t2, t3. eauto.
      - exists t', []. rewrite app_nil_r. eauto.
      - exists t', []. rewrite app_nil_r. eauto. }
    exists t1, cs, us. repeat (split; [done|]).
    intros _. exists dr. split; [done|]. by apply Hall.
  - apply delete_loop_run in Hd as [Hds _].
    exists t, [], []. rewrite app_nil_r. by repeat split.
  - apply delete_loop_run in Hd as [Hds _].
    exists t, [], []. rewrite app_nil_r. by repeat split.
Qed.

(** *** A pass that succeeds *)

Lemma buildDelete_named (m : gmap string value) (serviceID : string)
    (serviceVersion : Z) (name : string) :
  m !! "name" = Some (VString name) →
  buildDelete (RMap m) serviceID serviceVersion
    = Ret (DeleteKafkaInput.Build serviceID serviceVersion name).
Proof. intros H. unfold buildDelete, index. simpl. by rewrite H. Qed.

Lemma delete_loop_Ret (serviceID : string) (latestVersion : Z)
    (l : list resource) (s s' : St) (t : list event) :
  for_range l (delete_removed serviceID latestVersion) s = (Ret tt, s', t) →
  ∃ ds, Forall2 (λ x i, buildDelete x serviceID latestVersion = Ret i) l ds
        ∧ t.*1 = CallDeleteKafka <$> ds.
Proof.
  intros [_ Hall]%delete_loop_run. specialize (Hall eq_refl).
  induction Hall as [|x ev l t (m & name & -> & Hn & Hev & _) _ (ds & Hds & Ht)].
  - by exists [].
  - exists (DeleteKafkaInput.Build serviceID latestVersion name :: ds). split.
    + constructor; [by apply buildDelete_named|done].
    + rewrite !fmap_cons. by f_equal.
Qed.

Lemma create_loop_Ret (serviceID : string) (latestVersion : Z)
    (l : list resource) (s s' : St) (t : list event) :
  for_range l (create_new serviceID latestVersion) s = (Ret tt, s', t) →
  ∃ cs, Forall2 (λ x i, buildCreate x serviceID latestVersion = Ret i)
          (filter (λ x, has_name x) l) cs
        ∧ t.*1 = CallCreateKafka <$> cs.
Proof.
  revert s t. induction l as [|x l IH]; intros s t; simpl.
  - unfold mret, M_ret. intros [= <- <-]. exists []. by split; [constructor|].
  - intros Hrun. apply bind_run in Hrun
      as [([] & s1 & t1 & t2 & Hx & Hl & ->)|[(e & _ & [=])|[_ [=]]]].
    apply IH in Hl as (cs & Hcs & Ht2).
    apply create_new_run in Hx
      as [(-> & _ & Hskip)|(m & opts & err & -> & Hb & Hn & Hne & _ & _ & _ & -> & _)].
    + destruct (Hskip eq_refl) as (m & -> & Hn).
      rewrite filter_cons_False; [by exists cs|].
      simpl. destruct Hn as [->| ->]; [by intros []|].
      rewrite bool_decide_eq_false_2; [by intros []|]. intros Hne. by apply Hne.
    + rewrite filter_cons_True.
      2:{ simpl. rewrite Hn. by apply bool_decide_pack. }
      exists (opts :: cs). split; [by constructor|]. by rewrite fmap_app, Ht2.
Qed.

Lemma update_loop_Ret (serviceID : string) (latestVersion : Z)
    (oldSet l : list resource) (s s' : St) (t : list event) :
  for_range l (update_modified serviceID latestVersion oldSet) s = (Ret tt, s', t) →
  ∃ us, Forall2 (λ x i, ∃ m, x = RMap m ∧
                   buildUpdate m (Filter nameKey m oldSet) serviceID latestVersion
                     = Ret i) l us
        ∧ t.*1 = CallUpdateKafka <$> us.
Proof.
  revert s t. induction l as [|x l IH]; intros s t; simpl.
  - unfold mret, M_ret. intros [= <- <-]. exists []. by split; [constructor|].
  - intros Hrun. apply bind_run in Hrun
      as [([] & s1 & t1 & t2 & Hx & Hl & ->)|[(e & _ & [=])|[_ [=]]]].
    apply IH in Hl as (us & Hus & Ht2).
    apply update_modified_run in Hx
      as [(_ & _ & Hne)|(m & opts & err & -> & Hb & _ & -> & _)]; [done|].
    exists (opts :: us). split; [constructor; eauto|]. by rewrite fmap_app, Ht2.
Qed.

(** C1, as the code has it: when a pass returns without error, its calls
    are one delete for each record of the old set whose name no record of
    the new set has, one create for each record of the new set whose name
    no record of the old set has and whose name is a non-empty string, and
    one update for each record of the new set that differs from the old
    record of the same name; there is no other call. *)
Theorem Process_success_issues_exactly (serviceID : string)
    (oldLogCfg newLogCfg : option (list resource)) (latestVersion : Z)
    (s s' : St) (t : list event) :
  Process serviceID oldLogCfg newLogCfg latestVersion s = (Ret tt, s', t) →
  ∃ dr,
    Diff nameKey (default [] oldLogCfg) (default [] newLogCfg) = Ret dr ∧
    issues_exactly serviceID latestVersion (default [] oldLogCfg) t
      (DiffResult.Deleted dr)
      (filter (λ x, has_name x) (DiffResult.Added dr))
      (DiffResult.Modified dr) ∧
    (∀ x, x ∈ DiffResult.Deleted dr ↔
       x ∈ default [] oldLogCfg ∧
       ∃ k, nameKey x = Ret k ∧ ∀ n, n ∈ default [] newLogCfg → nameKey n ≠ Ret k) ∧
    (∀ x, x ∈ DiffResult.Added dr ↔
       x ∈ default [] newLogCfg ∧
       ∃ k, nameKey x = Ret k ∧ ∀ o, o ∈ default [] oldLogCfg → nameKey o ≠ Ret k) ∧
    (∀ x, x ∈ DiffResult.Modified dr ↔
       x ∈ default [] newLogCfg ∧
       ∃ k o, nameKey x = Ret k ∧
              counterpart nameKey k (default [] oldLogCfg) = Some o ∧ o ≠ x).
Proof.
  rewrite Process_run.
  destruct (Diff nameKey _ _) as [dr|e|] eqn:HD; [|done..].
  unfold reconcile. intros Hrun. exists dr. split; [done|].
  split; [|split; [|split]].
  - apply bind_run in Hrun
      as [([] & s1 & t1 & t' & Hd & Hrest & ->)|[(e & _ & [=])|[_ [=]]]].
    apply bind_run in Hrest
      as [([] & s2 & t2 & t3 & Hc & Hu & ->)|[(e & _ & [=])|[_ [=]]]].
    apply delete_loop_Ret in Hd as (ds & Hds & Ht1).
    apply create_loop_Ret in Hc as (cs & Hcs & Ht2).
    apply update_loop_Ret in Hu as (us & Hus & Ht3).
    exists ds, cs, us. repeat (split; [done|]).
    by rewrite !fmap_app, Ht1, Ht2, Ht3.
  - intros x. rewrite (Diff_Deleted _ _ _ _ _ HD).
    by setoid_rewrite counterpart_None.
  - intros x. rewrite (Diff_Added _ _ _ _ _ HD).
    by setoid_rewrite counterpart_None.
  - intros x. by rewrite (Diff_Modified _ _ _ _ _ HD).
Qed.

(** *** A pass over well-typed blocks on a service that accepts the calls *)

Lemma for_range_all_Ret {A : Type} (l : list A) (body : A → M unit) :
  (∀ x s, x ∈ l → ∃ s' t, body x s = (Ret tt, s', t)) →
  ∀ s, ∃ s' t, for_range l body s = (Ret tt, s', t).
Proof.
  induction l as [|x l IH]; intros Hbody s; simpl; [by eexists _, _|].
  destruct (Hbody x s) as (s1 & t1 & Hx); [apply list_elem_of_here|].
  destruct (IH (λ y s0 Hy, Hbody y s0 (list_elem_of_further _ _ _ Hy)) s1)
    as (s2 & t2 & Hl).
  rewrite (bind_Ret _ _ _ _ _ _ Hx), Hl. by eexists _, _.
Qed.

Lemma Filter_lookup_Some (computeKey : resource → res value)
    (m : gmap string value) (oldSet : list resource) (k : string) (v : value) :
  Filter computeKey m oldSet !! k = Some v → m !! k = Some v.
Proof.
  unfold Filter. destruct (computeKey (RMap m)) as [key| |]; [|done..].
  destruct (counterpart computeKey key oldSet) as [[o|]|]; [|done..].
  by intros [? _]%map_lookup_filter_Some.
Qed.

Lemma changed_string_typed (o : option value) :
  (∀ v, o = Some v → has_type TypeString v = true) → ∃ x, changed_string o = Ret x.
Proof.
  destruct o as [v|]; [|by eexists]. intros H. specialize (H v eq_refl).
  destruct v; try done. by eexists.
Qed.

Lemma changed_bool_typed (o : option value) :
  (∀ v, o = Some v → has_type TypeBool v = true) → ∃ x, changed_bool o = Ret x.
Proof.
  destruct o as [v|]; [|by eexists]. intros H. specialize (H v eq_refl).
  destruct v; try done. by eexists.
Qed.

Lemma changed_uint_typed (o : option value) :
  (∀ v, o = Some v → has_type TypeInt v = true) → ∃ x, changed_uint o = Ret x.
Proof.
  destruct o as [v|]; [|by eexists]. intros H. specialize (H v eq_refl).
  destruct v; try done. by eexists.
Qed.

Lemma schema_typed_lookup (m : gmap string value) (k : string) (ty : value_type)
    (v : value) :
  schema_typed (RMap m) → (k, ty) ∈ blockAttributes ++ vclAttributes →
  m !! k = Some v → has_type ty v = true.
Proof.
  intros (m' & [= <-] & Hb & Hv) [Hin|Hin]%elem_of_app Hk.
  - rewrite Forall_forall in Hb. destruct (Hb _ Hin) as (v' & Hk' & Hty).
    simpl in *. congruence.
  - rewrite Forall_forall in Hv. by apply (Hv _ Hin).
Qed.

Lemma schema_typed_required (m : gmap string value) (k : string) (ty : value_type) :
  schema_typed (RMap m) → (k, ty) ∈ blockAttributes →
  ∃ v, m !! k = Some v ∧ has_type ty v = true.
Proof.
  intros (m' & [= <-] & Hb & _) Hin. rewrite Forall_forall in Hb.
  apply (Hb _ Hin).
Qed.

Ltac attribute_in_schema :=
  unfold blockAttributes, vclAttributes; simpl;
  repeat first [apply list_elem_of_here | apply list_elem_of_further].

Lemma schema_typed_string (m : gmap string value) (k : string) :
  schema_typed (RMap m) → (k, TypeString) ∈ blockAttributes →
  ∃ s, assert_string (index m k) = Ret s ∧ m !! k = Some (VString s).
Proof.
  intros Hm Hin. destruct (schema_typed_required _ _ _ Hm Hin) as ([] & Hk & Hty);
    try done. unfold index. rewrite Hk. by eexists.
Qed.

Lemma schema_typed_bool (m : gmap string value) (k : string) :
  schema_typed (RMap m) → (k, TypeBool) ∈ blockAttributes →
  ∃ b, assert_bool (index m k) = Ret b.
Proof.
  intros Hm Hin. destruct (schema_typed_required _ _ _ Hm Hin) as ([] & Hk & Hty);
    try done. unfold index. rewrite Hk. by eexists.
Qed.

Lemma schema_typed_int (m : gmap string value) (k : string) :
  schema_typed (RMap m) → (k, TypeInt) ∈ blockAttributes →
  ∃ n, assert_int (index m k) = Ret n.
Proof.
  intros Hm Hin. destruct (schema_typed_required _ _ _ Hm Hin) as ([] & Hk & Hty);
    try done. unfold index. rewrite Hk. by eexists.
Qed.

Lemma buildDelete_typed (m : gmap string value) (serviceID : string)
    (serviceVersion : Z) :
  schema_typed (RMap m) →
  ∃ opts, buildDelete (RMap m) serviceID serviceVersion = Ret opts.
Proof.
  intros Hm. destruct (schema_typed_string m "name" Hm) as (name & _ & Hn);
    [attribute_in_schema|].
  eexists. by apply buildDelete_named.
Qed.

Lemma buildCreate_typed (m : gmap string value) (serviceID : string)
    (serviceVersion : Z) :
  schema_typed (RMap m) →
  (∃ vla, getVCLLoggingAttributes m = Ret vla) →
  ∃ opts, buildCreate (RMap m) serviceID serviceVersion = Ret opts.
Proof.
  intros Hm [vla Hvla]. unfold buildCreate. simpl. rewrite Hvla. simpl.
  repeat match goal with
  | |- context [assert_string (index m ?k)] =>
      let H := fresh in
      destruct (schema_typed_string m k Hm) as (? & H & _);
        [attribute_in_schema|rewrite H; clear H; simpl]
  | |- context [assert_bool (index m ?k)] =>
      let H := fresh in
      destruct (schema_typed_bool m k Hm) as (? & H);
        [attribute_in_schema|rewrite H; clear H; simpl]
  | |- context [assert_int (index m ?k)] =>
      let H := fresh in
      destruct (schema_typed_int m k Hm) as (? & H);
        [attribute_in_schema|rewrite H; clear H; simpl]
  end.
  by eexists.
Qed.

Lemma buildUpdate_typed (m : gmap string value) (oldSet : list resource)
    (serviceID : string) (latestVersion : Z) :
  schema_typed (RMap m) →
  ∃ opts, buildUpdate m (Filter nameKey m oldSet) serviceID latestVersion = Ret opts.
Proof.
  intros Hm. unfold buildUpdate.
  destruct (schema_typed_string m "name" Hm) as (name & -> & _);
    [attribute_in_schema|]. simpl.
  assert (∀ k ty v, (k, ty) ∈ blockAttributes ++ vclAttributes →
            Filter nameKey m oldSet !! k = Some v → has_type ty v = true) as Hty.
  { intros k ty v Hin Hk%Filter_lookup_Some. by eapply schema_typed_lookup. }
  repeat match goal with
  | |- context [changed_string (?F !! ?k)] =>
      let H := fresh in
      destruct (changed_string_typed (F !! k)) as (? & H);
        [intros ?; apply (Hty k TypeString); attribute_in_schema
        |rewrite H; clear H; simpl]
  | |- context [changed_bool (?F !! ?k)] =>
      let H := fresh in
      destruct (changed_bool_typed (F !! k)) as (? & H);
        [intros ?; apply (Hty k TypeBool); attribute_in_schema
        |rewrite H; clear H; simpl]
  | |- context [changed_uint (?F !! ?k)] =>
      let H := fresh in
      destruct (changed_uint_typed (F !! k)) as (? & H);
        [intros ?; apply (Hty k TypeInt); attribute_in_schema
        |rewrite H; clear H; simpl]
  end.
  by eexists.
Qed.

Lemma benign_after_delete (i : DeleteKafkaInput.t) (err : option error) :
  benign (CallDeleteKafka i, err) → after_delete err = Ret tt.
Proof.
  destruct err as [e|]; [|done]. intros [_ [errs ->]]. simpl.
  by destruct (decide (404 ≠ 404)).
Qed.

Lemma benign_after_call (c : api_call) (err : option error) :
  is_delete c = false → benign (c, err) → after_call err = Ret tt.
Proof.
  destruct err as [e|]; [|done]. intros Hc [Hd _]. simpl in *. congruence.
Qed.

(** On a service whose answers never stop a pass, a pass over blocks that
    follow the schema returns without error. *)
Lemma Process_succeeds (serviceID : string)
    (oldLogCfg newLogCfg : option (list resource)) (latestVersion : Z) (s : St) :
  (∀ s0 c, benign (c, (conn s0 c).1)) →
  (∀ m, ∃ vla, getVCLLoggingAttributes m = Ret vla) →
  Forall schema_typed (default [] oldLogCfg ++ default [] newLogCfg) →
  ∃ s' t, Process serviceID oldLogCfg newLogCfg latestVersion s = (Ret tt, s', t).
Proof.
  intros Hconn Hvcl Htyped. rewrite Forall_forall in Htyped.
  destruct (Diff_total nameKey (default [] oldLogCfg) (default [] newLogCfg))
    as [dr HD].
  { intros r (m & -> & _)%Htyped. by eexists. }
  rewrite Process_run, HD. unfold reconcile.
  destruct (for_range_all_Ret (DiffResult.Deleted dr)
              (delete_removed serviceID latestVersion)) with (s := s)
    as (s1 & t1 & H1).
  { intros x s0 [Hx _]%(Diff_Deleted _ _ _ _ _ HD).
    destruct (Htyped x) as (m & -> & Hb & Hv); [apply elem_of_app; by left|].
    destruct (buildDelete_typed m serviceID latestVersion) as [opts Ho]; [by exists m|].
    unfold delete_removed. rewrite lift_bind. simpl. rewrite lift_bind, Ho.
    destruct (deleteKafka opts s0) as [[r0 s0'] t0] eqn:Hd.
    apply deleteKafka_run in Hd as (err & Hc & -> & ->).
    rewrite (benign_after_delete opts); [by eexists _, _|].
    specialize (Hconn s0 (CallDeleteKafka opts)). by rewrite Hc in Hconn. }
  destruct (for_range_all_Ret (DiffResult.Added dr)
              (create_new serviceID latestVersion)) with (s := s1)
    as (s2 & t2 & H2).
  { intros x s0 [Hx _]%(Diff_Added _ _ _ _ _ HD).
    pose proof (Htyped x) as Hxt. destruct Hxt as (m & -> & Hb & Hv);
      [apply elem_of_app; by right|].
    assert (schema_typed (RMap m)) as Hm by (by exists m).
    destruct (schema_typed_string m "name" Hm) as (name & _ & Hn);
      [attribute_in_schema|].
    destruct (buildCreate_typed m serviceID latestVersion Hm (Hvcl m)) as [opts Ho].
    unfold create_new. rewrite lift_bind. simpl. rewrite Hn, lift_bind. simpl.
    destruct (decide (name = "")); [by eexists _, _|].
    rewrite lift_bind, Ho.
    destruct (createKafka opts s0) as [[r0 s0'] t0] eqn:Hc.
    apply createKafka_run in Hc as (err & Hc & -> & ->).
    rewrite (benign_after_call (CallCreateKafka opts)); [by eexists _, _|done|].
    specialize (Hconn s0 (CallCreateKafka opts)). by rewrite Hc in Hconn. }
  destruct (for_range_all_Ret (DiffResult.Modified dr)
              (update_modified serviceID latestVersion (default [] oldLogCfg)))
    with (s := s2) as (s3 & t3 & H3).
  { intros x s0 [Hx _]%(Diff_Modified _ _ _ _ _ HD).
    pose proof (Htyped x) as Hxt. destruct Hxt as (m & -> & Hb & Hv);
      [apply elem_of_app; by right|].
    assert (schema_typed (RMap m)) as Hm by (by exists m).
    destruct (buildUpdate_typed m (default [] oldLogCfg) serviceID latestVersion Hm)
      as [opts Ho].
    unfold update_modified. rewrite lift_bind. simpl. rewrite lift_bind, Ho.
    destruct (updateKafka opts s0) as [[r0 s0'] t0] eqn:Hu.
    apply updateKafka_run in Hu as (err & Hc & -> & ->).
    rewrite (benign_after_call (CallUpdateKafka opts)); [by eexists _, _|done|].
    specialize (Hconn s0 (CallUpdateKafka opts)). by rewrite Hc in Hconn. }
  rewrite (bind_Ret _ _ _ _ _ _ H1).
  rewrite (bind_Ret _ _ _ _ _ _ H2), H3. by eexists _, _.
Qed.

(** *** The builders on their own *)

Lemma assert_string_index (m : gmap string value) (k s : string) :
  assert_string (index m k) = Ret s → m !! k = Some (VString s).
Proof. unfold index. by destruct (m !! k) as [[]|]; simpl; intros [= <-]. Qed.

Lemma assert_bool_index (m : gmap string value) (k : string) (b : bool) :
  assert_bool (index m k) = Ret b → m !! k = Some (VBool b).
Proof. unfold index. by destruct (m !! k) as [[]|]; simpl; intros [= <-]. Qed.

Lemma assert_int_index (m : gmap string value) (k : string) (n : Z) :
  assert_int (index m k) = Ret n → m !! k = Some (VInt n).
Proof. unfold index. by destruct (m !! k) as [[]|]; simpl; intros [= <-]. Qed.

Lemma buildCreate_inv (m : gmap string value) (serviceID : string)
    (serviceVersion : Z) (opts : CreateKafkaInput.t) :
  buildCreate (RMap m) serviceID serviceVersion = Ret opts →
  ∃ vla name brokers topic required_acks use_tls compression_codec tls_ca_cert
    tls_client_cert tls_client_key tls_hostname parse_log_keyvals
    request_max_bytes auth_method user password,
    getVCLLoggingAttributes m = Ret vla ∧
    m !! "name" = Some (VString name) ∧
    m !! "brokers" = Some (VString brokers) ∧
    m !! "topic" = Some (VString topic) ∧
    m !! "required_acks" = Some (VString required_acks) ∧
    m !! "use_tls" = Some (VBool use_tls) ∧
    m !! "compression_codec" = Some (VString compression_codec) ∧
    m !! "tls_ca_cert" = Some (VString tls_ca_cert) ∧
    m !! "tls_client_cert" = Some (VString tls_client_cert) ∧
    m !! "tls_client_key" = Some (VString tls_client_key) ∧
    m !! "tls_hostname" = Some (VString tls_hostname) ∧
    m !! "parse_log_keyvals" = Some (VBool parse_log_keyvals) ∧
    m !! "request_max_bytes" = Some (VInt request_max_bytes) ∧
    m !! "auth_method" = Some (VString auth_method) ∧
    m !! "user" = Some (VString user) ∧
    m !! "password" = Some (VString password) ∧
    opts = CreateKafkaInput.Build serviceID serviceVersion name brokers topic
             required_acks use_tls compression_codec tls_ca_cert tls_client_cert
             tls_client_key tls_hostname (VCLLoggingAttributes.format vla)
             (uintOrDefault (VCLLoggingAttributes.formatVersion vla))
             (VCLLoggingAttributes.placement vla)
             (VCLLoggingAttributes.responseCondition vla)
             parse_log_keyvals (uint request_max_bytes) auth_method user password.
Proof.
  unfold buildCreate. simpl. intros H.
  repeat (apply res_bind_Ret in H as (? & ? & H)).
  injection H as <-.
  repeat match goal with
  | H : assert_string _ = _ |- _ => apply assert_string_index in H
  | H : assert_bool _ = _ |- _ => apply assert_bool_index in H
  | H : assert_int _ = _ |- _ => apply assert_int_index in H
  end.
  by repeat eexists.
Qed.

Lemma required_attribute (m : gmap string value) (k : string) (ty : value_type) :
  Forall (λ kt, ∃ v, m !! kt.1 = Some v ∧ has_type kt.2 v = true) blockAttributes →
  (k, ty) ∈ blockAttributes →
  ∃ v, index m k = v ∧ m !! k = Some v ∧ has_type ty v = true.
Proof.
  intros Hb Hin. rewrite Forall_forall in Hb.
  destruct (Hb _ Hin) as (v & Hk & Hty). simpl in *.
  exists v. unfold index. by rewrite Hk.
Qed.

(** X3: given that the VCL helper returns, [buildCreate] returns a request
    exactly for the maps that hold each of the fifteen attributes declared
    for every service type with a value of its declared type; for any
    other map one of its type assertions panics. *)
Theorem buildCreate_succeeds_iff (m : gmap string value) (serviceID : string)
    (serviceVersion : Z) (vla : VCLLoggingAttributes.t) :
  getVCLLoggingAttributes m = Ret vla →
  (∃ opts, buildCreate (RMap m) serviceID serviceVersion = Ret opts) ↔
    Forall (λ kt, ∃ v, m !! kt.1 = Some v ∧ has_type kt.2 v = true) blockAttributes.
Proof.
  intros Hvla. split.
  - intros [opts H]. apply buildCreate_inv in H
      as (vla' & name & brokers & topic & required_acks & use_tls
          & compression_codec & tls_ca_cert & tls_client_cert & tls_client_key
          & tls_hostname & parse_log_keyvals & request_max_bytes & auth_method
          & user & password & _ & H01 & H02 & H03 & H04 & H05 & H06 & H07 & H08
          & H09 & H10 & H11 & H12 & H13 & H14 & H15 & _).
    unfold blockAttributes.
    repeat (constructor; [simpl; eexists; split; [eassumption|reflexivity]|]).
    constructor.
  - intros Hb. unfold buildCreate. simpl. rewrite Hvla. simpl.
    repeat match goal with
    | |- context [assert_string (index m ?k)] =>
        let H := fresh in let Hty := fresh in
        destruct (required_attribute m k TypeString Hb) as ([] & H & _ & Hty);
          [attribute_in_schema|try discriminate Hty..]; rewrite H; clear H Hty; simpl
    | |- context [assert_bool (index m ?k)] =>
        let H := fresh in let Hty := fresh in
        destruct (required_attribute m k TypeBool Hb) as ([] & H & _ & Hty);
          [attribute_in_schema|try discriminate Hty..]; rewrite H; clear H Hty; simpl
    | |- context [assert_int (index m ?k)] =>
        let H := fresh in let Hty := fresh in
        destruct (required_attribute m k TypeInt Hb) as ([] & H & _ & Hty);
          [attribute_in_schema|try discriminate Hty..]; rewrite H; clear H Hty; simpl
    end.
    by eexists.
Qed.

(** X4: the request that [buildCreate] returns is addressed to the given
    service and version, takes its four VCL fields from the VCL helper,
    and every other field is the value of the attribute of the same name,
    an [int] converted to [uint]. *)
Theorem buildCreate_transcribes (m : gmap string value) (serviceID : string)
    (serviceVersion : Z) (opts : CreateKafkaInput.t) :
  buildCreate (RMap m) serviceID serviceVersion = Ret opts →
  CreateKafkaInput.ServiceID opts = serviceID ∧
  CreateKafkaInput.ServiceVersion opts = serviceVersion ∧
  (∃ vla, getVCLLoggingAttributes m = Ret vla ∧
     CreateKafkaInput.Format opts = VCLLoggingAttributes.format vla ∧
     CreateKafkaInput.FormatVersion opts
       = uintOrDefault (VCLLoggingAttributes.formatVersion vla) ∧
     CreateKafkaInput.Placement opts = VCLLoggingAttributes.placement vla ∧
     CreateKafkaInput.ResponseCondition opts
       = VCLLoggingAttributes.responseCondition vla) ∧
  ∀ k x, (k, x) ∈ create_fields opts →
    ∃ v ty, (k, ty) ∈ blockAttributes ∧ m !! k = Some v
            ∧ has_type ty v = true ∧ x = as_sent v.
Proof.
  intros H. apply buildCreate_inv in H
    as (vla & name & brokers & topic & required_acks & use_tls
        & compression_codec & tls_ca_cert & tls_client_cert & tls_client_key
        & tls_hostname & parse_log_keyvals & request_max_bytes & auth_method
        & user & password & Hvla & H01 & H02 & H03 & H04 & H05 & H06 & H07 & H08
        & H09 & H10 & H11 & H12 & H13 & H14 & H15 & ->).
  simpl. repeat (split; [done|]). split; [by exists vla|].
  intros k x Hin. unfold create_fields in Hin. simpl in Hin.
  repeat (apply elem_of_cons in Hin as [[= -> ->]|Hin];
    [eexists _, _; split; [attribute_in_schema|];
     split; [eassumption|]; split; reflexivity|]).
  by apply elem_of_nil in Hin.
Qed.

(** X5: the size limit of a create request is the [request_max_bytes] of
    the block when that is not negative, and 2^64 more than it when it is
    negative: the conversion to [uint] wraps, and nothing rejects a
    negative limit. *)
Theorem buildCreate_request_max_bytes (m : gmap string value) (serviceID : string)
    (serviceVersion : Z) (opts : CreateKafkaInput.t) (n : Z) :
  buildCreate (RMap m) serviceID serviceVersion = Ret opts →
  m !! "request_max_bytes" = Some (VInt n) →
  - 2 ^ 63 ≤ n < 2 ^ 63 →
  CreateKafkaInput.RequestMaxBytes opts = (if decide (n < 0) then 2 ^ 64 + n else n).
Proof.
  intros H Hn Hrange. apply buildCreate_inv in H
    as (vla & name & brokers & topic & required_acks & use_tls
        & compression_codec & tls_ca_cert & tls_client_cert & tls_client_key
        & tls_hostname & parse_log_keyvals & request_max_bytes & auth_method
        & user & password & _ & _ & _ & _ & _ & _ & _ & _ & _
        & _ & _ & _ & H12 & _ & _ & _ & ->).
  simpl. rewrite Hn in H12. injection H12 as <-. unfold uint.
  destruct (decide (n < 0)).
  - symmetry. apply (Z.mod_unique n (2 ^ 64) (-1) (2 ^ 64 + n)); lia.
  - apply Z.mod_small. lia.
Qed.

(** X6: the delete loop has no guard on the name. For a record without a
    [name] its iteration panics before any call, and so does the iteration
    of the update loop; for a record whose name is the empty string it
    sends a delete request with the empty name. *)
Theorem delete_removed_unguarded (serviceID : string) (latestVersion : Z)
    (oldSet : list resource) (m : gmap string value) (s : St) :
  m !! "name" = None ∨ m !! "name" = Some (VString "") →
  (m !! "name" = None ∧
   delete_removed serviceID latestVersion (RMap m) s = (Panic, s, []) ∧
   update_modified serviceID latestVersion oldSet (RMap m) s = (Panic, s, []))
  ∨ (m !! "name" = Some (VString "") ∧
     ∃ err s',
       conn s (CallDeleteKafka (DeleteKafkaInput.Build serviceID latestVersion ""))
         = (err, s') ∧
       delete_removed serviceID latestVersion (RMap m) s
         = (after_delete err, s',
            [(CallDeleteKafka (DeleteKafkaInput.Build serviceID latestVersion ""),
              err)])).
Proof.
  intros [Hn|Hn]; [left|right]; (split; [done|]).
  - split.
    + unfold delete_removed. rewrite lift_bind. simpl. rewrite lift_bind.
      unfold buildDelete, index. simpl. by rewrite Hn.
    + unfold update_modified. rewrite lift_bind. simpl. rewrite lift_bind.
      unfold buildUpdate, index. by rewrite Hn.
  - unfold delete_removed. rewrite lift_bind. simpl.
    rewrite lift_bind, (buildDelete_named _ _ _ _ Hn).
    destruct (deleteKafka (DeleteKafkaInput.Build serviceID latestVersion "") s)
      as [[r s'] t] eqn:Hrun.
    apply deleteKafka_run in Hrun as (err & Hc & -> & ->).
    by exists err, s'.
Qed.

(** *** More on Process *)




Lemma res_bind_Raise {A B : Type} (x : res A) (f : A → res B) (e : error) :
  x ≫= f = Raise e → x = Raise e ∨ ∃ a, x = Ret a ∧ f a = Raise e.
Proof.
  destruct x as [a|e'|]; simpl; [|intros [= ->]; by left|done].
  intros H. right. by exists a.
Qed.

Lemma assert_string_no_raise (v : value) (e : error) : assert_string v ≠ Raise e.
Proof. by destruct v. Qed.
Lemma assert_bool_no_raise (v : value) (e : error) : assert_bool v ≠ Raise e.
Proof. by destruct v. Qed.
Lemma assert_int_no_raise (v : value) (e : error) : assert_int v ≠ Raise e.
Proof. by destruct v. Qed.
Lemma assert_map_no_raise (x : resource) (e : error) : assert_map x ≠ Raise e.
Proof. by destruct x. Qed.
Lemma changed_string_no_raise (o : option value) (e : error) :
  changed_string o ≠ Raise e.
Proof. by destruct o as [[]|]. Qed.
Lemma changed_bool_no_raise (o : option value) (e : error) :
  changed_bool o ≠ Raise e.
Proof. by destruct o as [[]|]. Qed.
Lemma changed_uint_no_raise (o : option value) (e : error) :
  changed_uint o ≠ Raise e.
Proof. by destruct o as [[]|]. Qed.

Ltac no_raise H :=
  repeat (apply res_bind_Raise in H as [H|(? & _ & H)];
    [exfalso; revert H;
     first [apply assert_string_no_raise | apply assert_bool_no_raise
           | apply assert_int_no_raise | apply assert_map_no_raise
           | apply changed_string_no_raise | apply changed_bool_no_raise
           | apply changed_uint_no_raise]|]);
  try discriminate H.

Lemma buildDelete_no_raise (x : resource) (serviceID : string) (serviceVersion : Z)
    (e : error) :
  buildDelete x serviceID serviceVersion ≠ Raise e.
Proof. unfold buildDelete. intros H. no_raise H. Qed.

Lemma buildUpdate_no_raise (resource modified : gmap string value)
    (serviceID : string) (latestVersion : Z) (e : error) :
  buildUpdate resource modified serviceID latestVersion ≠ Raise e.
Proof. unfold buildUpdate. intros H. no_raise H. Qed.

Lemma buildCreate_no_raise (x : resource) (serviceID : string) (serviceVersion : Z)
    (e : error) :
  (∀ m e', getVCLLoggingAttributes m ≠ Raise e') →
  buildCreate x serviceID serviceVersion ≠ Raise e.
Proof.
  intros Hvcl. unfold buildCreate. intros H.
  apply res_bind_Raise in H as [H|(df & _ & H)]; [by destruct x|].
  apply res_bind_Raise in H as [H|(vla & _ & H)]; [by destruct (Hvcl df e)|].
  no_raise H.
Qed.

Lemma after_delete_Raise (err : option error) (e : error) :
  after_delete err = Raise e → err = Some e ∧ ∀ errs, e ≠ HTTPError 404 errs.
Proof.
  destruct err as [[sc errs'| |]|]; simpl; try (intros [= <-]; done).
  destruct (decide (sc ≠ 404)); [|done]. intros [= <-]. split; [done|]. congruence.
Qed.

Lemma after_call_Raise (err : option error) (e : error) :
  after_call err = Raise e → err = Some e.
Proof. destruct err; simpl; by intros [= <-]. Qed.

(** X8: an error that a pass returns is either the error of the diff, and
    then no call was made, or the answer of the client to the last call of
    the pass, which is not a 404 answered to a delete: the pass makes up no
    error of its own. *)
Theorem Process_error_origin (serviceID : string)
    (oldLogCfg newLogCfg : option (list resource)) (latestVersion : Z)
    (s s' : St) (e : error) (t : list event) :
  (∀ m e', getVCLLoggingAttributes m ≠ Raise e') →
  Process serviceID oldLogCfg newLogCfg latestVersion s = (Raise e, s', t) →
  (t = [] ∧ s' = s ∧
   Diff nameKey (default [] oldLogCfg) (default [] newLogCfg) = Raise e)
  ∨ ∃ t0 c, t = t0 ++ [(c, Some e)] ∧ ¬ not_found_on_delete c e.
Proof.
  intros Hvcl. rewrite Process_run.
  destruct (Diff nameKey _ _) as [dr|e'|]; [|intros [= <- <- <-]; by left|done].
  intros Hrun. right. revert Hrun.
  set (R := λ (r : res unit) (t : list event),
         ∀ e, r = Raise e → ∃ t0 c, t = t0 ++ [(c, Some e)]
                                    ∧ ¬ not_found_on_delete c e).
  intros Hrun.
  assert (R (Raise e) t) as HR; [|by apply HR].
  revert Hrun. generalize (Raise e : res unit). intros r. revert s r s' t.
  apply (reconcile_sequential R).
  - split; [done|]. intros t1 r t2 _ H2 e0 ->.
    destruct (H2 e0 eq_refl) as (t0 & c & -> & Hc).
    exists (t1 ++ t0), c. by rewrite app_assoc.
  - intros x s0 r0 s0' t0 _
      [(_ & _ & ->)|(m & name & err & _ & _ & _ & -> & ->)]%delete_removed_run;
      [done|].
    intros e0 [-> Hne]%after_delete_Raise. eexists [], _. split; [done|].
    intros [_ [errs ->]]. by destruct (Hne errs).
  - intros x s0 r0 s0' t0 _ Hx e0 ->. revert Hx. unfold create_new.
    rewrite lift_bind. destruct x as [m|]; simpl; [|done].
    destruct (m !! "name") as [v|]; [|done]. rewrite lift_bind.
    destruct v as [|name| | |]; simpl; try done.
    destruct (decide (name = "")); [done|]. rewrite lift_bind.
    destruct (buildCreate (RMap m) serviceID latestVersion) as [opts|e1|] eqn:Hb;
      [|by destruct (buildCreate_no_raise _ _ _ _ Hvcl Hb)|done].
    intros (err & _ & -> & ->%eq_sym%after_call_Raise)%createKafka_run.
    eexists [], _. split; [done|]. by intros [[=] _].
  - intros x s0 r0 s0' t0 _ Hx e0 ->. revert Hx. unfold update_modified.
    rewrite lift_bind. destruct x as [m|]; simpl; [|done].
    rewrite lift_bind.
    destruct (buildUpdate m _ serviceID latestVersion) as [opts|e1|] eqn:Hb;
      [|by destruct (buildUpdate_no_raise _ _ _ _ _ Hb)|done].
    intros (err & _ & -> & ->%eq_sym%after_call_Raise)%updateKafka_run.
    eexists [], _. split; [done|]. by intros [[=] _].
Qed.

(** X9: a pass whose old and new sets are the same set of maps with
    pairwise different names makes no call, leaves the service as it is
    and returns without error. *)
Theorem Process_unchanged_is_noop (serviceID : string)
    (cfg : option (list resource)) (latestVersion : Z) (s : St) :
  (∀ r, r ∈ default [] cfg → ∃ m, r = RMap m) →
  (∀ r1 r2, r1 ∈ default [] cfg → r2 ∈ default [] cfg →
            nameKey r1 = nameKey r2 → r1 = r2) →
  Process serviceID cfg cfg latestVersion s = (Ret tt, s, []).
Proof.
  set (l := default [] cfg). intros Hmaps Hinj.
  destruct (Diff_total nameKey l l) as [dr HD].
  { intros r [Hr|Hr]%elem_of_app; destruct (Hmaps r Hr) as [m ->]; by eexists. }
  assert (DiffResult.Added dr = []) as HA.
  { apply elem_of_nil_inv. intros r (Hr & k & Hk & Hnone)%(Diff_Added _ _ _ _ _ HD).
    rewrite counterpart_None in Hnone. by destruct (Hnone r Hr). }
  assert (DiffResult.Deleted dr = []) as HDel.
  { apply elem_of_nil_inv. intros r (Hr & k & Hk & Hnone)%(Diff_Deleted _ _ _ _ _ HD).
    rewrite counterpart_None in Hnone. by destruct (Hnone r Hr). }
  assert (DiffResult.Modified dr = []) as HM.
  { apply elem_of_nil_inv.
    intros r (Hr & k & o & Hk & [Ho Hko]%counterpart_Some & Hne)%(Diff_Modified _ _ _ _ _ HD).
    destruct Hne. apply Hinj; [done..|congruence]. }
  rewrite Process_run. fold l. rewrite HD. unfold reconcile.
  by rewrite HA, HDel, HM.
Qed.

Lemma Diff_rename (m m' : gmap string value) :
  index m "name" ≠ index m' "name" →
  Diff nameKey [RMap m] [RMap m']
  = Ret (DiffResult.Build [RMap m'] [] [RMap m]).
Proof.
  intros Hne. unfold Diff. cbn [extract_keys nameKey mbind res_bind].
  assert (lookup_key (index m' "name") [(index m "name", RMap m)] = None) as H1.
  { unfold lookup_key. cbn [find fst]. by rewrite bool_decide_eq_false_2. }
  assert (lookup_key (index m "name") [(index m' "name", RMap m')] = None) as H2.
  { unfold lookup_key. cbn [find fst]. by rewrite bool_decide_eq_false_2. }
  rewrite !filter_cons, !filter_nil. unfold differs_from. cbn [fst snd].
  rewrite H1, H2.
  repeat case_decide; try done.
Qed.

(** X10: changing the name of an endpoint deletes it and creates it anew,
    as the description of the [name] attribute says: on a service that
    answers without error, or with a 404 to a delete, the pass from a
    block to a block of another, non-empty name makes a delete call for the
    old name, then a create call for the new name, and no update call. *)
Theorem Process_rename_deletes_and_creates (serviceID : string) (latestVersion : Z)
    (m m' : gmap string value) (n n' : string) (s : St) :
  (∀ s0 c, benign (c, (conn s0 c).1)) →
  m !! "name" = Some (VString n) →
  m' !! "name" = Some (VString n') →
  n ≠ n' → n' ≠ "" →
  (∃ opts, buildCreate (RMap m') serviceID latestVersion = Ret opts) →
  ∃ opts e1 e2 s',
    buildCreate (RMap m') serviceID latestVersion = Ret opts ∧
    CreateKafkaInput.Name opts = n' ∧
    Process serviceID (Some [RMap m]) (Some [RMap m']) latestVersion s
    = (Ret tt, s',
       [(CallDeleteKafka (DeleteKafkaInput.Build serviceID latestVersion n), e1);
        (CallCreateKafka opts, e2)]).
Proof.
  intros Hconn Hn Hn' Hne Hne' [opts Hb].
  assert (CreateKafkaInput.Name opts = n') as Hname.
  { apply buildCreate_inv in Hb
      as (vla & name & brokers & topic & required_acks & use_tls
          & compression_codec & tls_ca_cert & tls_client_cert & tls_client_key
          & tls_hostname & parse_log_keyvals & request_max_bytes & auth_method
          & user & password & _ & H01 & H02 & H03 & H04 & H05 & H06 & H07 & H08
          & H09 & H10 & H11 & H12 & H13 & H14 & H15 & ->).
    simpl. congruence. }
  rewrite Process_run. simpl default. rewrite Diff_rename.
  2:{ unfold index. rewrite Hn, Hn'. simpl. congruence. }
  unfold reconcile. simpl.
  destruct (delete_removed serviceID latestVersion (RMap m) s)
    as [[r1 s1] t1] eqn:H1.
  pose proof H1 as H1'.
  unfold delete_removed in H1'. rewrite lift_bind in H1'. simpl in H1'.
  rewrite lift_bind, (buildDelete_named _ _ _ _ Hn) in H1'.
  apply deleteKafka_run in H1' as (e1 & Hc1 & -> & ->).
  rewrite (benign_after_delete (DeleteKafkaInput.Build serviceID latestVersion n)) in H1.
  2:{ specialize (Hconn s (CallDeleteKafka
                            (DeleteKafkaInput.Build serviceID latestVersion n))).
      by rewrite Hc1 in Hconn. }
  destruct (create_new serviceID latestVersion (RMap m') s1)
    as [[r2 s2] t2] eqn:H2.
  pose proof H2 as H2'.
  unfold create_new in H2'. rewrite lift_bind in H2'. simpl in H2'.
  rewrite Hn', lift_bind in H2'. simpl in H2'.
  destruct (decide (n' = "")); [done|].
  rewrite lift_bind, Hb in H2'.
  apply createKafka_run in H2' as (e2 & Hc2 & -> & ->).
  rewrite (benign_after_call (CallCreateKafka opts)) in H2; [|done|].
  2:{ specialize (Hconn s1 (CallCreateKafka opts)). by rewrite Hc2 in Hconn. }
  exists opts, e1, e2, s2. split; [done|]. split; [done|].
  unfold mbind, M_bind, mret, M_ret. rewrite H1. unfold mbind, M_bind.
  by rewrite H2.
Qed.

Ltac conforming_attribute H isVCL :=
  lazymatch goal with
  | |- ∃ v, ?m !! ?k = Some v ∧ has_type ?ty v = true =>
      let E := fresh "E" in
      let Hk := fresh "Hk" in
      assert (Schema.Type_ <$> registered_attributes isVCL !! k = Some ty) as E
        by (vm_compute; reflexivity);
      pose proof (H k) as Hk;
      destruct (registered_attributes isVCL !! k) as [?|]; [|discriminate E];
      injection E as E; rewrite E in Hk;
      destruct (m !! k) as [?|];
      [eexists; split; [reflexivity|exact Hk]|destruct Hk]
  | |- ∀ v, ?m !! ?k = Some v → has_type ?ty v = true =>
      let E := fresh "E" in
      let Hk := fresh "Hk" in
      let v := fresh "v" in
      let Hv := fresh "Hv" in
      assert (Schema.Type_ <$> registered_attributes isVCL !! k
              = (if isVCL then Some ty else None)) as E
        by (vm_compute; reflexivity);
      pose proof (H k) as Hk; intros v Hv; rewrite Hv in Hk;
      destruct (registered_attributes isVCL !! k) as [?|];
      [first [discriminate E | injection E as E; rewrite E in Hk; exact Hk]
      |destruct Hk]
  end.

Lemma conforms_schema_typed (isVCL : bool) (m : gmap string value) :
  conforms (registered_attributes isVCL) m → schema_typed (RMap m).
Proof.
  intros H. exists m. split; [done|].
  unfold blockAttributes, vclAttributes.
  destruct isVCL.
  - split; repeat (constructor; [cbn [fst snd]; conforming_attribute H true|]); constructor.
  - split; repeat (constructor; [cbn [fst snd]; conforming_attribute H false|]); constructor.
Qed.

(** X11: the builders agree with the schema that [Register] installs. For
    either service type, on a service that answers without error, or with
    a 404 to a delete, a pass over blocks that have exactly the attributes
    registered for the block, each with a value of its registered type,
    returns without error: no type assertion fails. *)
Theorem Process_succeeds_on_registered_blocks (key : string) (isVCL : bool)
    (sch : gmap string Schema.t) (optional : bool)
    (elem : gmap string Schema.attribute) (serviceID : string)
    (oldLogCfg newLogCfg : option (list resource)) (latestVersion : Z) (s : St) :
  (Register key isVCL sch).1 !! key = Some (Schema.TypeSet optional elem) →
  (∀ s0 c, benign (c, (conn s0 c).1)) →
  (∀ m, ∃ vla, getVCLLoggingAttributes m = Ret vla) →
  Forall (λ x, ∃ m, x = RMap m ∧ conforms elem m)
    (default [] oldLogCfg ++ default [] newLogCfg) →
  (Register key isVCL sch).2 = None ∧
  ∃ s' t, Process serviceID oldLogCfg newLogCfg latestVersion s = (Ret tt, s', t).
Proof.
  unfold Register. simpl. rewrite lookup_insert_eq. intros [= <- <-] Hconn Hvcl Hall.
  split; [done|]. apply Process_succeeds; [done..|].
  eapply Forall_impl; [exact Hall|]. simpl.
  intros x (m & -> & Hm). by apply (conforms_schema_typed isVCL).
Qed.

(** X13: [deleteKafka] and [createKafka] make exactly one call each and
    never panic. [createKafka] returns the answer of the client as it is, a
    404 included; [deleteKafka] returns nil for no error and for a 404,
    and otherwise the very error of the client. *)
Theorem deleteKafka_createKafka_outcomes (d : DeleteKafkaInput.t)
    (c : CreateKafkaInput.t) (s sd sc : St) (rd rc : res unit)
    (td tc : list event) :
  deleteKafka d s = (rd, sd, td) →
  createKafka c s = (rc, sc, tc) →
  (∃ err, conn s (CallDeleteKafka d) = (err, sd) ∧ td = [(CallDeleteKafka d, err)] ∧
     match err with
     | None => rd = Ret tt
     | Some e => (rd = Ret tt ∧ ∃ errs, e = HTTPError 404 errs)
                 ∨ (rd = Raise e ∧ ∀ errs, e ≠ HTTPError 404 errs)
     end) ∧
  (∃ err, conn s (CallCreateKafka c) = (err, sc) ∧ tc = [(CallCreateKafka c, err)] ∧
     match err with
     | None => rc = Ret tt
     | Some e => rc = Raise e
     end).
Proof.
  intros (err & Hc & -> & ->)%deleteKafka_run (err' & Hc' & -> & ->)%createKafka_run.
  split.
  - exists err. repeat split; [done|].
    destruct err as [[sc' errs| |]|]; simpl; [|right; by split..|done].
    destruct (decide (sc' ≠ 404)) as [Hne|Heq].
    + right. split; [done|]. congruence.
    + left. apply dec_stable in Heq as ->. eauto.
  - exists err'. repeat split; [done|]. by destruct err'.
Qed.

End Handler.

(** ** Worked passes *)

Lemma deleteKafka_not_found_is_success_witness :
  deleteKafka Sample.absent (DeleteKafkaInput.Build "svc" 3 "b") tt
  = (Ret tt, tt,
     [(CallDeleteKafka (DeleteKafkaInput.Build "svc" 3 "b"),
       Some (HTTPError 404 []))]).
Proof.
  apply (deleteKafka_not_found_is_success Sample.absent). reflexivity.
Defined.

Lemma create_new_skips_unnamed_witness :
  (∀ s, create_new Sample.accept Sample.vcl Sample.uint_or_default "svc" 3
          Sample.defunct s = (Ret tt, s, []))
  ∧ (∀ before after s,
       for_range (before ++ Sample.defunct :: after)
         (create_new Sample.accept Sample.vcl Sample.uint_or_default "svc" 3) s
       = for_range (before ++ after)
           (create_new Sample.accept Sample.vcl Sample.uint_or_default "svc" 3) s).
Proof.
  apply (create_new_skips_unnamed Sample.accept Sample.vcl Sample.uint_or_default
           "svc" 3 (Sample.block "" "logs")).
  right. vm_compute. reflexivity.
Defined.

Lemma Process_aborts_on_failed_key_witness :
  ∃ r',
    r' ∈ Sample.old_set ++ [ROther (VString "c")] ∧
    nameKey r' = Raise (Errorf_type_asserted r') ∧
    Diff nameKey Sample.old_set [ROther (VString "c")]
      = Raise (Errorf_type_asserted r') ∧
    Process Sample.accept Sample.vcl Sample.uint_or_default "svc"
      (Some Sample.old_set) (Some [ROther (VString "c")]) 3 tt
      = (Raise (Errorf_type_asserted r'), tt, []).
Proof.
  apply (Process_aborts_on_failed_key Sample.accept Sample.vcl Sample.uint_or_default
           "svc" (Some Sample.old_set) (Some [ROther (VString "c")]) 3
           (ROther (VString "c")) tt).
  - apply elem_of_app. right. apply list_elem_of_here.
  - intros m. discriminate.
Defined.

Lemma Process_error_propagates_witness :
  let run := Process Sample.broken Sample.vcl Sample.uint_or_default "svc"
               (Some Sample.old_set) (Some Sample.new_set) 3 tt in
  run.2 = [(CallDeleteKafka (DeleteKafkaInput.Build "svc" 3 "b"),
            Some (HTTPError 500 ["internal"]))]
  ∧ run.1.1 = Raise (HTTPError 500 ["internal"]) ∧ length run.2 = 1%nat.
Proof.
  intros run. split; [vm_compute; reflexivity|].
  apply (Process_error_propagates Sample.broken Sample.vcl Sample.uint_or_default
           "svc" (Some Sample.old_set) (Some Sample.new_set) 3 tt run.1.2
           run.1.1 run.2 0
           (CallDeleteKafka (DeleteKafkaInput.Build "svc" 3 "b"))
           (HTTPError 500 ["internal"])).
  - vm_compute. reflexivity.
  - vm_compute. reflexivity.
  - intros [_ [errs Herr]]. discriminate.
Defined.

Lemma update_sets_only_changed_fields_witness :
  let opts := UpdateKafkaInput.Build "svc" 3 "a" None (Some "audit") None None
                None None None None None None None None None None None None None
                None in
  UpdateKafkaInput.ServiceID opts = "svc" ∧
  UpdateKafkaInput.ServiceVersion opts = 3 ∧
  Sample.block "a" "audit" !! "name" = Some (VString (UpdateKafkaInput.Name opts)) ∧
  ∃ o, RMap o ∈ Sample.old_set ∧
       index o "name" = index (Sample.block "a" "audit") "name" ∧
       o ≠ Sample.block "a" "audit" ∧
    ∀ f x, (f, x) ∈ pointer_fields opts →
      x = as_sent <$> Filter nameKey (Sample.block "a" "audit") Sample.old_set !! f ∧
      (is_Some x ↔ is_Some (Sample.block "a" "audit" !! f)
                   ∧ o !! f ≠ Sample.block "a" "audit" !! f).
Proof.
  intros opts.
  eapply (update_sets_only_changed_fields Sample.accept "svc" 3
            Sample.old_set Sample.new_set
            (DiffResult.Build [Sample.c; Sample.defunct] [Sample.a_new] [Sample.b])
            (Sample.block "a" "audit")
            tt tt (Ret tt) [(CallUpdateKafka opts, None)] opts None).
  - vm_compute. reflexivity.
  - apply list_elem_of_here.
  - vm_compute. reflexivity.
  - apply list_elem_of_here.
Defined.

Lemma Process_calls_are_name_keyed_witness :
  let run := Process Sample.accept Sample.vcl Sample.uint_or_default "svc"
               (Some Sample.old_set) (Some Sample.new_set) 3 tt in
  (call_name <$> run.2.*1 = ["b"; "c"; "a"]) ∧
  (∀ m, nameKey (RMap m) = Ret (index m "name")) ∧
  ∀ c err, (c, err) ∈ run.2 →
    ∃ dr, Diff nameKey Sample.old_set Sample.new_set = Ret dr ∧
          names_record_of "svc" 3 dr c.
Proof.
  intros run. split; [vm_compute; reflexivity|].
  apply (Process_calls_are_name_keyed Sample.accept Sample.vcl Sample.uint_or_default
           "svc" (Some Sample.old_set) (Some Sample.new_set) 3 tt run.1.2 run.1.1).
  vm_compute. reflexivity.
Defined.

Lemma Process_deletes_creates_updates_witness :
  let run := Process Sample.absent Sample.vcl Sample.uint_or_default "svc"
               (Some Sample.old_set) (Some Sample.new_set) 3 tt in
  ∃ ds cs us,
    run.2 = ds ++ cs ++ us ∧
    Forall (λ ev, is_delete ev.1 = true) ds ∧
    Forall (λ ev, is_create ev.1 = true) cs ∧
    Forall (λ ev, is_update ev.1 = true) us ∧
    (cs ++ us ≠ [] →
     ∃ dr, Diff nameKey Sample.old_set Sample.new_set = Ret dr ∧
       Forall2 (λ x ev, ∃ m name,
                  x = RMap m ∧ m !! "name" = Some (VString name) ∧
                  ev.1 = CallDeleteKafka (DeleteKafkaInput.Build "svc" 3 name) ∧
                  benign ev) (DiffResult.Deleted dr) ds).
Proof.
  intros run.
  apply (Process_deletes_creates_updates Sample.absent Sample.vcl
           Sample.uint_or_default "svc" (Some Sample.old_set) (Some Sample.new_set)
           3 tt run.1.2 run.1.1).
  vm_compute. reflexivity.
Defined.

Lemma Diff_partitions_witness :
  ∃ dr, Diff nameKey [Sample.b] [Sample.c; Sample.defunct] = Ret dr ∧
    (∀ r, r ∈ DiffResult.Added dr ++ DiffResult.Modified dr
              ++ Unchanged [Sample.b] [Sample.c; Sample.defunct]
          ↔ r ∈ [Sample.c; Sample.defunct]) ∧
    (∀ r, r ∈ DiffResult.Deleted dr ++ DiffResult.Modified dr
              ++ Unchanged [Sample.b] [Sample.c; Sample.defunct]
          ↔ r ∈ [Sample.b]) ∧
    (∀ r, ¬ (r ∈ DiffResult.Added dr ∧ r ∈ DiffResult.Deleted dr) ∧
          ¬ (r ∈ DiffResult.Added dr ∧ r ∈ DiffResult.Modified dr) ∧
          ¬ (r ∈ DiffResult.Deleted dr ∧ r ∈ DiffResult.Modified dr)).
Proof.
  apply (Diff_partitions nameKey [Sample.b] [Sample.c; Sample.defunct]).
  - apply Forall_forall. refine (bool_decide_unpack _ _). vm_compute. exact I.
  - apply Forall_forall.
    repeat (constructor; [eexists; reflexivity|]). constructor.
  - intros r1 r2 H1 H2.
    assert (Forall (λ x, Forall (λ y, nameKey x = nameKey y → x = y)
                      ([Sample.b] ++ [Sample.c; Sample.defunct]))
              ([Sample.b] ++ [Sample.c; Sample.defunct])) as Hall.
    { refine (bool_decide_unpack _ _). vm_compute. exact I. }
    rewrite Forall_forall in Hall. specialize (Hall r1 H1).
    rewrite Forall_forall in Hall. exact (Hall r2 H2).
Defined.

(** The sample blocks follow the schema, so the pass over them succeeds on
    a service that accepts every call, and on one where no endpoint is
    left to delete. *)
Lemma Sample_passes_succeed :
  (∃ s' t, Process Sample.accept Sample.vcl Sample.uint_or_default "svc"
             (Some Sample.old_set) (Some Sample.new_set) 3 tt = (Ret tt, s', t))
  ∧ (∃ s' t, Process Sample.absent Sample.vcl Sample.uint_or_default "svc"
               (Some Sample.old_set) (Some Sample.new_set) 3 tt = (Ret tt, s', t)).
Proof.
  assert (Forall schema_typed (Sample.old_set ++ Sample.new_set)) as Htyped.
  { change (Forall schema_typed
              [Sample.a_old; Sample.b; Sample.a_new; Sample.c; Sample.defunct]).
    repeat match goal with
    | |- Forall _ [] => constructor
    | |- Forall _ (_ :: _) => constructor
    | |- schema_typed _ =>
        eexists; split; [reflexivity|];
        unfold blockAttributes, vclAttributes; split
    | |- ∃ v, _ !! _ = Some v ∧ _ => eexists; split; vm_compute; reflexivity
    | |- ∀ v, _ !! _ = Some v → _ => intros v; vm_compute; discriminate
    end. }
  split.
  - apply Process_succeeds; [|intros m; by eexists|exact Htyped].
    intros s0 c. exact I.
  - apply Process_succeeds; [|intros m; by eexists|exact Htyped].
    intros s0 c. unfold benign, not_found_on_delete. simpl.
    destruct (is_delete c) eqn:Hc; simpl; eauto.
Qed.

Lemma Process_success_issues_exactly_witness :
  let run := Process Sample.accept Sample.vcl Sample.uint_or_default "svc"
               (Some Sample.old_set) (Some Sample.new_set) 3 tt in
  ∃ dr,
    Diff nameKey Sample.old_set Sample.new_set = Ret dr ∧
    issues_exactly Sample.vcl Sample.uint_or_default "svc" 3 Sample.old_set run.2
      (DiffResult.Deleted dr)
      (filter (λ x, has_name x) (DiffResult.Added dr))
      (DiffResult.Modified dr) ∧
    (∀ x, x ∈ DiffResult.Deleted dr ↔
       x ∈ Sample.old_set ∧
       ∃ k, nameKey x = Ret k ∧ ∀ n, n ∈ Sample.new_set → nameKey n ≠ Ret k) ∧
    (∀ x, x ∈ DiffResult.Added dr ↔
       x ∈ Sample.new_set ∧
       ∃ k, nameKey x = Ret k ∧ ∀ o, o ∈ Sample.old_set → nameKey o ≠ Ret k) ∧
    (∀ x, x ∈ DiffResult.Modified dr ↔
       x ∈ Sample.new_set ∧
       ∃ k o, nameKey x = Ret k ∧
              counterpart nameKey k Sample.old_set = Some o ∧ o ≠ x).
Proof.
  intros run.
  apply (Process_success_issues_exactly Sample.accept Sample.vcl
           Sample.uint_or_default "svc" (Some Sample.old_set) (Some Sample.new_set)
           3 tt run.1.2 run.2).
  vm_compute. reflexivity.
Defined.

(** C1 as stated fails on the code. On a service that accepts every call,
    the pass over an empty old set and a new set holding only the entry
    with the empty name succeeds without a call, though that entry is in
    the new set and not in the old one. On a service that answers every
    call with an error, the pass stops after its first delete, and the
    record to create gets no call. *)
Lemma Process_issues_exactly_counterexample :
  (Diff nameKey [] [Sample.defunct]
     = Ret (DiffResult.Build [Sample.defunct] [] []) ∧
   Process Sample.accept Sample.vcl Sample.uint_or_default "svc"
     (Some []) (Some [Sample.defunct]) 3 tt = (Ret tt, tt, []) ∧
   ¬ issues_exactly Sample.vcl Sample.uint_or_default "svc" 3 [] []
       [] [Sample.defunct] [])
  ∧
  (Diff nameKey [Sample.b] [Sample.c]
     = Ret (DiffResult.Build [Sample.c] [] [Sample.b]) ∧
   Process Sample.broken Sample.vcl Sample.uint_or_default "svc"
     (Some [Sample.b]) (Some [Sample.c]) 3 tt
     = (Raise (HTTPError 500 ["internal"]), tt,
        [(CallDeleteKafka (DeleteKafkaInput.Build "svc" 3 "b"),
          Some (HTTPError 500 ["internal"]))]) ∧
   ¬ issues_exactly Sample.vcl Sample.uint_or_default "svc" 3 [Sample.b]
       [(CallDeleteKafka (DeleteKafkaInput.Build "svc" 3 "b"),
         Some (HTTPError 500 ["internal"]))]
       [Sample.b] [Sample.c] []).
Proof.
  split.
  - split; [vm_compute; reflexivity|].
    split; [vm_compute; reflexivity|].
    intros (ds & cs & us & Hds & Hcs & Hus & Hperm).
    apply Permutation_length in Hperm.
    apply Forall2_length in Hds, Hcs, Hus.
    rewrite !length_app, !length_fmap in Hperm. simpl in *. lia.
  - split; [vm_compute; reflexivity|].
    split; [vm_compute; reflexivity|].
    intros (ds & cs & us & Hds & Hcs & Hus & Hperm).
    apply Permutation_length in Hperm.
    apply Forall2_length in Hds, Hcs, Hus.
    rewrite !length_app, !length_fmap in Hperm. simpl in *. lia.
Qed.

(** *** Properties of flattenKafka *)

Lemma prune_lookup (m : gmap string value) (k : string) :
  prune m !! k =
    match m !! k with
    | Some v => if decide (v = VString "") then None else Some v
    | None => None
    end.
Proof.
  unfold prune.
  assert (∀ m0 : gmap string value,
    map_fold prune_step m0 m !! k =
      match m !! k with
      | Some v => if decide (v = VString "") then None else m0 !! k
      | None => m0 !! k
      end) as Hgen.
  { intros m0.
    apply (map_fold_weak_ind (λ (r : gmap string value) (m' : gmap string value),
      r !! k = match m' !! k with
               | Some v => if decide (v = VString "") then None else m0 !! k
               | None => m0 !! k
               end)).
    - by rewrite lookup_empty.
    - intros i x m' r Hi IH. unfold prune_step.
      destruct (decide (i = k)) as [->|Hne].
      + rewrite lookup_insert_eq. rewrite Hi in IH.
        destruct (decide (x = VString "")); [by rewrite lookup_delete_eq|done].
      + rewrite lookup_insert_ne by done.
        destruct (decide (x = VString "")); [by rewrite lookup_delete_ne|done]. }
  rewrite Hgen. destruct (m !! k) as [v|] eqn:Hk; [|done].
  by destruct (decide (v = VString "")).
Qed.

Lemma prune_filter (m : gmap string value) :
  prune m = filter (λ kv, kv.2 ≠ VString "") m.
Proof.
  apply map_eq. intros k. rewrite prune_lookup, map_lookup_filter.
  destruct (m !! k) as [v|]; simpl; [|done].
  destruct (decide (v = VString "")); case_guard; simpl in *; done.
Qed.

Lemma foldl_snoc_fmap {A B : Type} (f : A → B) (l : list A) (acc : list B) :
  foldl (λ flattened s, flattened ++ [f s]) acc l = acc ++ (f <$> l).
Proof.
  revert acc. induction l as [|s l IH]; intros acc; simpl.
  - by rewrite app_nil_r.
  - rewrite IH. by rewrite <- app_assoc.
Qed.

Lemma flattenKafka_fmap (kafkaList : list Kafka.t) :
  flattenKafka kafkaList = (λ s, prune (flatKafka s)) <$> kafkaList.
Proof.
  unfold flattenKafka.
  exact (foldl_snoc_fmap (λ s, prune (flatKafka s)) kafkaList []).
Qed.

(** C9: no map produced by [flattenKafka] binds a key to the empty string. *)
Theorem flattenKafka_no_empty_string (kafkaList : list Kafka.t)
    (m : gmap string value) (k : string) :
  m ∈ flattenKafka kafkaList → m !! k ≠ Some (VString "").
Proof.
  rewrite flattenKafka_fmap. intros Hm.
  apply list_elem_of_fmap in Hm as (s & -> & _).
  rewrite prune_lookup.
  destruct (flatKafka s !! k) as [v|]; [|done].
  destruct (decide (v = VString "")); congruence.
Qed.

Lemma flattenKafka_no_empty_string_witness :
  let k := Kafka.Build "ep" "logs" "" "" "" false "" "" "" "" "" 2 "" "" false 0 "" "" "" in
  ∃ m, m ∈ flattenKafka [k] ∧ m !! "brokers" ≠ Some (VString "")
       ∧ m !! "name" = Some (VString "ep").
Proof.
  eexists. split; [apply list_elem_of_here|].
  split; [eapply (flattenKafka_no_empty_string [_]); apply list_elem_of_here|].
  vm_compute. reflexivity.
Defined.

(** *** More on flattenKafka *)

Lemma flatKafka_attributes (s : Kafka.t) :
  flatKafka s = list_to_map (kafka_attributes s).
Proof. reflexivity. Qed.

Lemma kafka_attributes_NoDup (s : Kafka.t) : NoDup (kafka_attributes s).*1.
Proof.
  change (NoDup ["name"; "topic"; "brokers"; "compression_codec"; "required_acks";
                 "use_tls"; "tls_ca_cert"; "tls_client_cert"; "tls_client_key";
                 "tls_hostname"; "format"; "format_version"; "placement";
                 "response_condition"; "parse_log_keyvals"; "request_max_bytes";
                 "auth_method"; "user"; "password"]).
  refine (bool_decide_unpack _ _). vm_compute. exact I.
Qed.

Lemma prune_flatKafka_lookup (s : Kafka.t) (k : string) (v : value) :
  prune (flatKafka s) !! k = Some v ↔
    (k, v) ∈ kafka_attributes s ∧ v ≠ VString "".
Proof.
  rewrite prune_lookup, flatKafka_attributes.
  rewrite (elem_of_list_to_map _ _ _ (kafka_attributes_NoDup s)).
  destruct (list_to_map (kafka_attributes s) !! k) as [v'|] eqn:Hk.
  - destruct (decide (v' = VString "")) as [->|Hne].
    + split; [done|]. by intros [[= <-] ?].
    + split; [by intros [= <-]|]. by intros [[= <-] _].
  - split; [done|]. by intros [? _].
Qed.

(** X1: [flattenKafka] returns one map for each endpoint, in the order of
    the list, and the map of an endpoint holds exactly the entries of the
    literal whose value is not the empty string. *)
Theorem flattenKafka_lookup (kafkaList : list Kafka.t) (i : nat) (s : Kafka.t) :
  kafkaList !! i = Some s →
  length (flattenKafka kafkaList) = length kafkaList ∧
  ∃ m, flattenKafka kafkaList !! i = Some m ∧
       ∀ k v, m !! k = Some v ↔ (k, v) ∈ kafka_attributes s ∧ v ≠ VString "".
Proof.
  intros Hi. rewrite flattenKafka_fmap. split; [by rewrite length_fmap|].
  exists (prune (flatKafka s)). split.
  - by rewrite list_lookup_fmap, Hi.
  - intros k v. apply prune_flatKafka_lookup.
Qed.

Lemma flattenKafka_lookup_witness :
  let s := Kafka.Build "ep" "logs" "" "" "" false "" "" "" "" "" 2 "" "" false 0
             "" "" "" in
  length (flattenKafka [s; s]) = 2%nat ∧
  ∃ m, flattenKafka [s; s] !! 1%nat = Some m ∧
       ∀ k v, m !! k = Some v ↔ (k, v) ∈ kafka_attributes s ∧ v ≠ VString "".
Proof.
  intros s. apply (flattenKafka_lookup [s; s] 1 s). reflexivity.
Defined.

Lemma prune_flatKafka_string (s : Kafka.t) (k x : string) :
  flatKafka s !! k = Some (VString x) →
  prune (flatKafka s) !! k = if decide (x = "") then None else Some (VString x).
Proof.
  intros H. rewrite prune_lookup, H.
  destruct (decide (x = "")) as [->|Hne]; [done|].
  destruct (decide (VString x = VString "")); congruence.
Qed.

Lemma prune_flatKafka_other (s : Kafka.t) (k : string) (v : value) :
  flatKafka s !! k = Some v → (∀ x, v ≠ VString x) →
  prune (flatKafka s) !! k = Some v.
Proof.
  intros H Hv. rewrite prune_lookup, H.
  destruct (decide (v = VString "")) as [->|Hne]; [by destruct (Hv "")|done].
Qed.

Ltac same_string Hk s1 s2 k f :=
  let E := fresh "E" in
  assert (f s1 = f s2) as E;
  [ pose proof (Hk k) as E;
    rewrite (prune_flatKafka_string s1 k (f s1) eq_refl),
            (prune_flatKafka_string s2 k (f s2) eq_refl) in E;
    repeat case_decide; congruence
  | ].

Ltac same_other Hk s1 s2 k v f :=
  let E := fresh "E" in
  assert (f s1 = f s2) as E;
  [ pose proof (Hk k) as E;
    rewrite (prune_flatKafka_other s1 k (v (f s1)) eq_refl) in E by done;
    rewrite (prune_flatKafka_other s2 k (v (f s2)) eq_refl) in E by done;
    congruence
  | ].

(** X2: flattening loses nothing: two endpoints with the same flattened map
    agree on every field that [flattenKafka] reads. *)
Theorem flattenKafka_injective (s1 s2 : Kafka.t) :
  flattenKafka [s1] = flattenKafka [s2] → s1 = s2.
Proof.
  rewrite !flattenKafka_fmap, !fmap_cons. intros H.
  apply (f_equal head) in H.
  change (Some (prune (flatKafka s1)) = Some (prune (flatKafka s2))) in H.
  apply (inj Some) in H.
  assert (∀ k, prune (flatKafka s1) !! k = prune (flatKafka s2) !! k) as Hk
    by (intros k; by rewrite H).
  clear H.
  same_string Hk s1 s2 "name" Kafka.Name.
  same_string Hk s1 s2 "topic" Kafka.Topic.
  same_string Hk s1 s2 "brokers" Kafka.Brokers.
  same_string Hk s1 s2 "compression_codec" Kafka.CompressionCodec.
  same_string Hk s1 s2 "required_acks" Kafka.RequiredACKs.
  same_other Hk s1 s2 "use_tls" VBool Kafka.UseTLS.
  same_string Hk s1 s2 "tls_ca_cert" Kafka.TLSCACert.
  same_string Hk s1 s2 "tls_client_cert" Kafka.TLSClientCert.
  same_string Hk s1 s2 "tls_client_key" Kafka.TLSClientKey.
  same_string Hk s1 s2 "tls_hostname" Kafka.TLSHostname.
  same_string Hk s1 s2 "format" Kafka.Format.
  same_other Hk s1 s2 "format_version" VUint Kafka.FormatVersion.
  same_string Hk s1 s2 "placement" Kafka.Placement.
  same_string Hk s1 s2 "response_condition" Kafka.ResponseCondition.
  same_other Hk s1 s2 "parse_log_keyvals" VBool Kafka.ParseLogKeyvals.
  same_other Hk s1 s2 "request_max_bytes" VUint Kafka.RequestMaxBytes.
  same_string Hk s1 s2 "auth_method" Kafka.AuthMethod.
  same_string Hk s1 s2 "user" Kafka.User.
  same_string Hk s1 s2 "password" Kafka.Password.
  clear Hk. destruct s1, s2. simpl in *. subst. reflexivity.
Qed.

Lemma flattenKafka_injective_witness :
  let s := Kafka.Build "ep" "logs" "" "" "" false "" "" "" "" "" 2 "" "" false 0
             "" "" "" in
  s = s.
Proof.
  intros s. apply (flattenKafka_injective s s). reflexivity.
Defined.


(** *** Read *)

(** X12: [Read] returns an error exactly when [ListKafkas] does, built from
    the id, the version and that error, and then leaves the resource data
    as it is. Otherwise it returns nil, whatever [d.Set] answers, and what
    it hands to [d.Set] is one map for each listed endpoint, none of which
    binds an attribute to the empty string. *)
Theorem Read_outcome {St D : Type}
    (ListKafkas : St → ListKafkasInput.t → list Kafka.t * option error * St)
    (d_Set : D → string → list (gmap string value) → option error * D)
    (key id : string) (version : Z) (d d' : D) (s s' : St)
    (r : option read_error) :
  Read ListKafkas d_Set key id version d s = (r, d', s') →
  ∃ kafkaList err,
    ListKafkas s (ListKafkasInput.Build id version) = (kafkaList, err, s') ∧
    match err with
    | Some e => r = Some (Errorf_looking_up id version e) ∧ d' = d
    | None =>
        r = None ∧
        d' = (d_Set d key (flattenKafka kafkaList)).2 ∧
        length (flattenKafka kafkaList) = length kafkaList ∧
        ∀ m k, m ∈ flattenKafka kafkaList → m !! k ≠ Some (VString "")
    end.
Proof.
  unfold Read.
  destruct (ListKafkas s _) as [[kafkaList err] s1] eqn:HL.
  destruct err as [e|].
  - intros [= <- <- <-]. by exists kafkaList, (Some e).
  - destruct (d_Set d key (flattenKafka kafkaList)) as [err' d1] eqn:HS.
    intros [= <- <- <-]. exists kafkaList, None.
    split; [done|]. split; [done|]. split; [by rewrite HS|]. split.
    + by rewrite flattenKafka_fmap, length_fmap.
    + intros m k. rewrite flattenKafka_fmap.
      intros (x & -> & _)%list_elem_of_fmap. rewrite prune_lookup.
      destruct (flatKafka x !! k) as [v|]; [|done].
      destruct (decide (v = VString "")); congruence.
Qed.

Lemma Read_outcome_witness :
  ∃ kafkaList err,
    Sample.lists tt (ListKafkasInput.Build "svc" 3) = (kafkaList, err, tt) ∧
    match err with
    | Some e => (None : option read_error) = Some (Errorf_looking_up "svc" 3 e)
                ∧ tt = tt
    | None =>
        (None : option read_error) = None ∧
        tt = (Sample.refuses tt "logging_kafka" (flattenKafka kafkaList)).2 ∧
        length (flattenKafka kafkaList) = length kafkaList ∧
        ∀ m k, m ∈ flattenKafka kafkaList → m !! k ≠ Some (VString "")
    end.
Proof.
  apply (Read_outcome Sample.lists Sample.refuses "logging_kafka" "svc" 3 tt tt tt tt).
  reflexivity.
Defined.

(** *** Worked examples for the builders and the other passes *)

Lemma buildCreate_succeeds_iff_witness :
  (∃ opts, buildCreate Sample.vcl Sample.uint_or_default
             (RMap (Sample.block "c" "logs")) "svc" 3 = Ret opts) ↔
  Forall (λ kt, ∃ v, Sample.block "c" "logs" !! kt.1 = Some v
                     ∧ has_type kt.2 v = true) blockAttributes.
Proof.
  apply (buildCreate_succeeds_iff Sample.vcl Sample.uint_or_default
           (Sample.block "c" "logs") "svc" 3
           (VCLLoggingAttributes.Build "" None "none" "")).
  reflexivity.
Defined.

Lemma buildCreate_transcribes_witness :
  let opts := CreateKafkaInput.Build "svc" 3 "c" "kafka:9092" "logs" "1" false ""
                "" "" "" "" "" 0 "none" "" false 0 "" "" "" in
  CreateKafkaInput.ServiceID opts = "svc" ∧
  CreateKafkaInput.ServiceVersion opts = 3 ∧
  (∃ vla, Sample.vcl (Sample.block "c" "logs") = Ret vla ∧
     CreateKafkaInput.Format opts = VCLLoggingAttributes.format vla ∧
     CreateKafkaInput.FormatVersion opts
       = Sample.uint_or_default (VCLLoggingAttributes.formatVersion vla) ∧
     CreateKafkaInput.Placement opts = VCLLoggingAttributes.placement vla ∧
     CreateKafkaInput.ResponseCondition opts
       = VCLLoggingAttributes.responseCondition vla) ∧
  ∀ k x, (k, x) ∈ create_fields opts →
    ∃ v ty, (k, ty) ∈ blockAttributes ∧ Sample.block "c" "logs" !! k = Some v
            ∧ has_type ty v = true ∧ x = as_sent v.
Proof.
  intros opts.
  apply (buildCreate_transcribes Sample.vcl Sample.uint_or_default
           (Sample.block "c" "logs") "svc" 3 opts).
  vm_compute. reflexivity.
Defined.

Lemma buildCreate_request_max_bytes_witness :
  let opts := CreateKafkaInput.Build "svc" 3 "n" "kafka:9092" "logs" "1" false ""
                "" "" "" "" "" 0 "none" "" false 18446744073709551615 "" "" "" in
  CreateKafkaInput.RequestMaxBytes opts
  = (if decide (-1 < 0) then 2 ^ 64 + -1 else -1).
Proof.
  intros opts.
  apply (buildCreate_request_max_bytes Sample.vcl Sample.uint_or_default
           Sample.negative_limit "svc" 3 opts (-1)).
  - vm_compute. reflexivity.
  - vm_compute. reflexivity.
  - lia.
Defined.

Lemma delete_removed_unguarded_witness :
  (Sample.unnamed !! "name" = None ∧
   delete_removed Sample.accept "svc" 3 (RMap Sample.unnamed) tt = (Panic, tt, []) ∧
   update_modified Sample.accept "svc" 3 Sample.old_set (RMap Sample.unnamed) tt
     = (Panic, tt, []))
  ∨ (Sample.unnamed !! "name" = Some (VString "") ∧
     ∃ err s',
       Sample.accept tt (CallDeleteKafka (DeleteKafkaInput.Build "svc" 3 ""))
         = (err, s') ∧
       delete_removed Sample.accept "svc" 3 (RMap Sample.unnamed) tt
         = (after_delete err, s',
            [(CallDeleteKafka (DeleteKafkaInput.Build "svc" 3 ""), err)])).
Proof.
  apply (delete_removed_unguarded Sample.accept "svc" 3 Sample.old_set
           Sample.unnamed tt).
  left. vm_compute. reflexivity.
Defined.


Lemma Process_error_origin_witness :
  let run := Process Sample.broken Sample.vcl Sample.uint_or_default "svc"
               (Some Sample.old_set) (Some Sample.new_set) 3 tt in
  (run.2 = [] ∧ run.1.2 = tt ∧
   Diff nameKey Sample.old_set Sample.new_set = Raise (HTTPError 500 ["internal"]))
  ∨ ∃ t0 c, run.2 = t0 ++ [(c, Some (HTTPError 500 ["internal"]))]
            ∧ ¬ not_found_on_delete c (HTTPError 500 ["internal"]).
Proof.
  intros run.
  apply (Process_error_origin Sample.broken Sample.vcl Sample.uint_or_default
           "svc" (Some Sample.old_set) (Some Sample.new_set) 3 tt run.1.2
           (HTTPError 500 ["internal"]) run.2).
  - intros m e'. discriminate.
  - vm_compute. reflexivity.
Defined.

Lemma Process_unchanged_is_noop_witness :
  Process Sample.broken Sample.vcl Sample.uint_or_default "svc"
    (Some Sample.new_set) (Some Sample.new_set) 3 tt = (Ret tt, tt, []).
Proof.
  apply (Process_unchanged_is_noop Sample.broken Sample.vcl Sample.uint_or_default
           "svc" (Some Sample.new_set) 3 tt).
  - apply Forall_forall. repeat (constructor; [by eexists|]). constructor.
  - intros r1 r2 H1 H2.
    assert (Forall (λ x, Forall (λ y, nameKey x = nameKey y → x = y) Sample.new_set)
              Sample.new_set) as Hall.
    { refine (bool_decide_unpack _ _). vm_compute. exact I. }
    rewrite Forall_forall in Hall. specialize (Hall r1 H1).
    rewrite Forall_forall in Hall. exact (Hall r2 H2).
Defined.

Lemma Process_rename_deletes_and_creates_witness :
  ∃ opts e1 e2 s',
    buildCreate Sample.vcl Sample.uint_or_default (RMap (Sample.block "c" "logs"))
      "svc" 3 = Ret opts ∧
    CreateKafkaInput.Name opts = "c" ∧
    Process Sample.absent Sample.vcl Sample.uint_or_default "svc"
      (Some [RMap (Sample.block "b" "logs")]) (Some [RMap (Sample.block "c" "logs")])
      3 tt
    = (Ret tt, s',
       [(CallDeleteKafka (DeleteKafkaInput.Build "svc" 3 "b"), e1);
        (CallCreateKafka opts, e2)]).
Proof.
  apply (Process_rename_deletes_and_creates Sample.absent Sample.vcl
           Sample.uint_or_default "svc" 3
           (Sample.block "b" "logs") (Sample.block "c" "logs") "b" "c" tt).
  - intros s0 c. unfold benign, not_found_on_delete. simpl.
    destruct (is_delete c) eqn:Hc; simpl; eauto.
  - vm_compute. reflexivity.
  - vm_compute. reflexivity.
  - discriminate.
  - discriminate.
  - eexists. vm_compute. reflexivity.
Defined.

Lemma Sample_block_conforms (name topic : string) :
  conforms (registered_attributes false) (Sample.block name topic).
Proof.
  intros k.
  destruct (decide (k ∈ ["name"; "topic"; "brokers"; "compression_codec";
                         "required_acks"; "use_tls"; "tls_ca_cert";
                         "tls_client_cert"; "tls_client_key"; "tls_hostname";
                         "parse_log_keyvals"; "request_max_bytes"; "auth_method";
                         "user"; "password"])) as [Hin|Hnin].
  - repeat (apply elem_of_cons in Hin as [->|Hin]; [exact (eq_refl true)|]).
    apply elem_of_nil in Hin. destruct Hin.
  - assert (registered_attributes false !! k = None) as ->.
    { unfold registered_attributes. cbv beta zeta iota.
      apply not_elem_of_list_to_map_1. exact Hnin. }
    assert (Sample.block name topic !! k = None) as ->.
    { unfold Sample.block. apply not_elem_of_list_to_map_1. exact Hnin. }
    exact I.
Qed.

Lemma Process_succeeds_on_registered_blocks_witness :
  (Register "logging_kafka" false ∅).2 = None ∧
  ∃ s' t, Process Sample.accept Sample.vcl Sample.uint_or_default "svc"
            (Some Sample.old_set) (Some Sample.new_set) 3 tt = (Ret tt, s', t).
Proof.
  apply (Process_succeeds_on_registered_blocks Sample.accept Sample.vcl
           Sample.uint_or_default "logging_kafka" false ∅ true
           (registered_attributes false) "svc"
           (Some Sample.old_set) (Some Sample.new_set) 3 tt).
  - apply lookup_insert_eq.
  - intros s0 c. exact I.
  - intros m. by eexists.
  - change (Forall (λ x, ∃ m, x = RMap m ∧ conforms (registered_attributes false) m)
              [Sample.a_old; Sample.b; Sample.a_new; Sample.c; Sample.defunct]).
    repeat (constructor;
      [eexists; split; [reflexivity|apply Sample_block_conforms]|]).
    constructor.
Defined.

Lemma deleteKafka_createKafka_outcomes_witness :
  (∃ err, Sample.absent tt (CallDeleteKafka (DeleteKafkaInput.Build "svc" 3 "b"))
          = (err, tt)
     ∧ [(CallDeleteKafka (DeleteKafkaInput.Build "svc" 3 "b"),
         Some (HTTPError 404 []))]
       = [(CallDeleteKafka (DeleteKafkaInput.Build "svc" 3 "b"), err)] ∧
     match err with
     | None => (Ret tt : res unit) = Ret tt
     | Some e => ((Ret tt : res unit) = Ret tt ∧ ∃ errs, e = HTTPError 404 errs)
                 ∨ ((Ret tt : res unit) = Raise e ∧ ∀ errs, e ≠ HTTPError 404 errs)
     end) ∧
  (∃ err,
     Sample.absent tt
       (CallCreateKafka
          (CreateKafkaInput.Build "svc" 3 "c" "kafka:9092" "logs" "1" false "" ""
             "" "" "" "" 0 "none" "" false 0 "" "" "")) = (err, tt)
     ∧ [(CallCreateKafka
           (CreateKafkaInput.Build "svc" 3 "c" "kafka:9092" "logs" "1" false "" ""
              "" "" "" "" 0 "none" "" false 0 "" "" ""), None)]
       = [(CallCreateKafka
             (CreateKafkaInput.Build "svc" 3 "c" "kafka:9092" "logs" "1" false ""
                "" "" "" "" "" 0 "none" "" false 0 "" "" ""), err)] ∧
     match err with
     | None => (Ret tt : res unit) = Ret tt
     | Some e => (Ret tt : res unit) = Raise e
     end).
Proof.
  apply (deleteKafka_createKafka_outcomes Sample.absent
           (DeleteKafkaInput.Build "svc" 3 "b")
           (CreateKafkaInput.Build "svc" 3 "c" "kafka:9092" "logs" "1" false "" ""
              "" "" "" "" 0 "none" "" false 0 "" "" "")
           tt tt tt (Ret tt) (Ret tt)); reflexivity.
Defined.
